(** * volatile-chat: relay server, ghost-chat client and password envelope

    A shallow embedding of the repository's JavaScript:

    - [Relay]: the WebSocket relay server (the handlers registered in
      [wss.on("connection", ...)], [deliverPending] and
      [deleteMessageFromRedis]), in its version with media types; the
      older copy differs in what it logs and builds messages without
      [mediaType];
    - [GhostChat]: the client session controller ([scheduleReconnect],
      the [open] listener, [handleIncomingMessage]);
    - [CryptoModule] and [CryptoBrowser]: password based encryption for
      Node and for the browser.

    Each handler is modelled as one atomic step: the interleaving of other
    events at an [await] is not part of the model.  What a handler reads
    from outside ([uuidv4()], [Date.now()], random bytes, whether
    [new WebSocket] throws) is an argument.  The primitives of the platform
    (PBKDF2, AES-GCM, UTF-8) are a class with their contract; base64 is
    written out. *)

From Stdlib Require Import ZArith.
From Stdlib.Strings Require Import Ascii Byte.
From stdpp Require Import gmap strings list pretty.

Local Open Scope string_scope.
Local Open Scope list_scope.

(** * The relay server *)

Module Relay.

(** A WebSocket object, compared by reference. *)
Abbreviation ConnId := nat.

(** [ws.readyState]; [OPEN] is the numeric code 1 the server compares with. *)
Inductive ReadyState := CONNECTING | OPEN | CLOSING | CLOSED.

Definition readyState_code (r : ReadyState) : nat :=
  match r with CONNECTING => 0 | OPEN => 1 | CLOSING => 2 | CLOSED => 3 end.

#[global] Instance ReadyState_eq_dec : EqDecision ReadyState.
Proof. solve_decision. Defined.

(** [chatMessage], the object built by [send_message]. *)
Record ChatMessage := mkChatMessage {
  cm_id : string;
  cm_from : string;
  cm_to : string;
  cm_content : string;
  cm_mediaType : string;
  cm_timestamp : Z
}.

#[global] Instance ChatMessage_eq_dec : EqDecision ChatMessage.
Proof. solve_decision. Defined.

(** An element of a Redis list is a text.  [Stringified m] is the text
    [JSON.stringify(m)] of a chat message: [JSON.parse] gives [m] back, and
    two such texts are equal exactly when the messages are.  [Unparseable s]
    is a text on which [JSON.parse] throws. *)
Inductive RedisValue :=
  | Stringified (m : ChatMessage)
  | Unparseable (s : string).

#[global] Instance RedisValue_eq_dec : EqDecision RedisValue.
Proof. solve_decision. Defined.

Definition JSON_stringify (m : ChatMessage) : RedisValue := Stringified m.

(** [None] stands for the exception of [JSON.parse]. *)
Definition JSON_parse (raw : RedisValue) : option ChatMessage :=
  match raw with
  | Stringified m => Some m
  | Unparseable _ => None
  end.

(** The object a client frame parses to.  A field that is absent reads
    [undefined], here [None]; the fields of the protocol are strings. *)
Record ClientMsg := mkClientMsg {
  msg_type : option string;
  msg_userId : option string;
  msg_to : option string;
  msg_content : option string;
  msg_mediaType : option string;
  msg_messageId : option string
}.

(** What arrives on the socket: a text [JSON.parse] rejects, the JSON text
    [null], or a text that parses to a value whose fields can be read (a
    number, a string or an array reads like an object without fields). *)
Inductive RawFrame :=
  | NotJson
  | JsonNull
  | Json (msg : ClientMsg).

(** Frames the server sends, named by their [type] field. *)
Inductive ServerFrame :=
  | error_frame (error : string) (validTypes : option (list string))
  | pending_messages (messages : list ChatMessage) (count : nat)
  | new_message (message : ChatMessage)
  | message_sent (id to : string) (timestamp : Z)
  | message_seen (messageId seenBy : string) (timestamp : Z)
  | all_messages_seen (seenBy : string) (count : nat) (timestamp : Z)
  | ack_seen (messageId : string) (deleted : bool) (reason : option string)
  | ack_seen_all (deletedCount : nat).

#[global] Instance ServerFrame_eq_dec : EqDecision ServerFrame.
Proof. solve_decision. Defined.

Definition is_error_frame (f : ServerFrame) : bool :=
  match f with error_frame _ _ => true | _ => false end.

(** What the server keeps for one connection: the [userId] variable of the
    connection's closure ([None] is [null]) and the socket's state. *)
Record Connection := mkConnection {
  conn_userId : option string;
  conn_readyState : ReadyState
}.

(** The process: the [clients] map, the Redis lists and the connections. *)
Record Server := mkServer {
  clients : gmap string ConnId;
  redis : gmap string (list RedisValue);
  connections : gmap ConnId Connection
}.

Definition init : Server :=
  {| clients := ∅; redis := ∅; connections := ∅ |}.

Inductive JSError :=
  | TypeError (message : string)
  | SyntaxError (message : string).

Inductive Completion (A : Type) :=
  | Normal (a : A)
  | Throw (e : JSError).
Arguments Normal {A} a.
Arguments Throw {A} e.

(** One call of [ws.send]: the socket and the frame. *)
Abbreviation Sent := (ConnId * ServerFrame)%type.

(** An asynchronous function of the server: from a state, how it completes,
    the state it leaves and the frames it handed to [ws.send], oldest
    first. *)
Definition Async (A : Type) : Type :=
  Server → Completion A * Server * list Sent.

Definition ret {A} (a : A) : Async A := λ σ, (Normal a, σ, []).

Definition throw {A} (e : JSError) : Async A := λ σ, (Throw e, σ, []).

Definition bind {A B} (m : Async A) (k : A → Async B) : Async B := λ σ,
  match m σ with
  | (Normal a, σ1, out1) =>
      match k a σ1 with
      | (r, σ2, out2) => (r, σ2, out1 ++ out2)
      end
  | (Throw e, σ1, out1) => (Throw e, σ1, out1)
  end.

Notation "x <- m ;; k" := (bind m (λ x, k))
  (at level 100, m at next level, right associativity).
Notation "m ;;; k" := (bind m (λ _, k))
  (at level 100, right associativity).

(** ** Sockets, the [clients] map and Redis *)

(** [ws.send(JSON.stringify(f))]: the call is recorded, whatever the state
    of the socket. *)
Definition ws_send (ws : ConnId) (f : ServerFrame) : Async unit :=
  λ σ, (Normal (), σ, [(ws, f)]).

(** [ws.readyState === 1] *)
Definition ws_is_open (ws : ConnId) : Async bool := λ σ,
  (Normal (match connections σ !! ws with
           | Some c => bool_decide (readyState_code (conn_readyState c) = 1)
           | None => false
           end), σ, []).

Definition get_userId (ws : ConnId) : Async (option string) := λ σ,
  (Normal (c ← connections σ !! ws; conn_userId c), σ, []).

Definition set_userId (ws : ConnId) (u : string) : Async unit := λ σ,
  (Normal (),
   {| clients := clients σ; redis := redis σ;
      connections :=
        alter (λ c, {| conn_userId := Some u;
                       conn_readyState := conn_readyState c |})
              ws (connections σ) |}, []).

Definition clients_get (u : string) : Async (option ConnId) := λ σ,
  (Normal (clients σ !! u), σ, []).

Definition clients_set (u : string) (ws : ConnId) : Async unit := λ σ,
  (Normal (),
   {| clients := <[u := ws]> (clients σ); redis := redis σ;
      connections := connections σ |}, []).

Definition clients_delete (u : string) : Async unit := λ σ,
  (Normal (),
   {| clients := delete u (clients σ); redis := redis σ;
      connections := connections σ |}, []).

(** The list stored under a key; a key that does not exist reads as the
    empty list. *)
Definition lrange_all (db : gmap string (list RedisValue)) (key : string)
  : list RedisValue :=
  default [] (db !! key).

(** Redis keeps no empty list: a key whose list becomes empty is gone. *)
Definition store_list (key : string) (l : list RedisValue)
    (db : gmap string (list RedisValue)) : gmap string (list RedisValue) :=
  match l with
  | [] => delete key db
  | _ => <[key := l]> db
  end.

(** [LREM key 1 v]: the list without its first element equal to [v]. *)
Fixpoint remove_first (v : RedisValue) (l : list RedisValue)
  : list RedisValue :=
  match l with
  | [] => []
  | x :: rest => if decide (x = v) then rest else x :: remove_first v rest
  end.

Definition with_redis (f : gmap string (list RedisValue) →
                           gmap string (list RedisValue)) : Async unit :=
  λ σ, (Normal (),
        {| clients := clients σ; redis := f (redis σ);
           connections := connections σ |}, []).

(** [redis.lrange(key, 0, -1)] *)
Definition redis_lrange (key : string) : Async (list RedisValue) := λ σ,
  (Normal (lrange_all (redis σ) key), σ, []).

(** [redis.rpush(key, v)] *)
Definition redis_rpush (key : string) (v : RedisValue) : Async unit :=
  with_redis (λ db, store_list key (lrange_all db key ++ [v]) db).

(** [redis.del(key)] *)
Definition redis_del (key : string) : Async unit :=
  with_redis (delete key).

(** [pipeline.lrem(key, 1, v)] followed by [pipeline.exec()] *)
Definition redis_lrem1 (key : string) (v : RedisValue) : Async unit :=
  with_redis (λ db, store_list key (remove_first v (lrange_all db key)) db).

(** ** Helpers of the server *)

(** A JavaScript condition on a field: [undefined] and the empty string are
    falsy, any other string is the value read. *)
Definition truthy (v : option string) : option string :=
  match v with
  | Some (String a s) => Some (String a s)
  | _ => None
  end.

(** [pending.map((raw) => JSON.parse(raw))]: the first text that does not
    parse throws. *)
Fixpoint parse_all (pending : list RedisValue) : Async (list ChatMessage) :=
  match pending with
  | [] => ret []
  | raw :: rest =>
      match JSON_parse raw with
      | Some m => ms <- parse_all rest ;; ret (m :: ms)
      | None => throw (SyntaxError "Unexpected token in JSON")
      end
  end.

(** [deliverPending(userId, ws)] *)
Definition deliverPending (userId : string) (ws : ConnId) : Async unit :=
  let redisKey := "chat:" +:+ userId in
  pending <- redis_lrange redisKey ;;
  if bool_decide (0 < length pending) then
    messages <- parse_all pending ;;
    ws_send ws (pending_messages messages (length messages))
  else ret ().

(** The [for (const raw of allMessages)] loop of [deleteMessageFromRedis];
    a text that does not parse is skipped by the empty [catch]. *)
Fixpoint deleteMessage_loop (redisKey messageId : string)
    (allMessages : list RedisValue) : Async (option ChatMessage) :=
  match allMessages with
  | [] => ret None
  | raw :: rest =>
      match JSON_parse raw with
      | Some parsed =>
          if bool_decide (cm_id parsed = messageId) then
            (redis_lrem1 redisKey raw ;;; ret (Some parsed))
          else deleteMessage_loop redisKey messageId rest
      | None => deleteMessage_loop redisKey messageId rest
      end
  end.

(** [deleteMessageFromRedis(userId, messageId)] *)
Definition deleteMessageFromRedis (userId messageId : string)
  : Async (option ChatMessage) :=
  let redisKey := "chat:" +:+ userId in
  allMessages <- redis_lrange redisKey ;;
  deleteMessage_loop redisKey messageId allMessages.

(** [if (w && w.readyState === 1) w.send(frame)] *)
Definition send_if_open (w : option ConnId) (f : ServerFrame) : Async unit :=
  match w with
  | Some r => open <- ws_is_open r ;; if open then ws_send r f else ret ()
  | None => ret ()
  end.

(** [senders.add(x)] on a JavaScript [Set], kept in insertion order. *)
Definition Set_add (x : string) (senders : list string) : list string :=
  if bool_decide (x ∈ senders) then senders else senders ++ [x].

(** The first loop of [seen_all]: the set of the [from] fields of the texts
    that parse. *)
Definition collect_senders (allRaw : list RedisValue) : list string :=
  foldl (λ senders raw,
           match JSON_parse raw with
           | Some m => Set_add (cm_from m) senders
           | None => senders
           end) [] allRaw.

(** The second loop of [seen_all]. *)
Fixpoint notify_senders (senders : list string) (f : ServerFrame)
  : Async unit :=
  match senders with
  | [] => ret ()
  | senderId :: rest =>
      senderWs <- clients_get senderId ;;
      send_if_open senderWs f ;;;
      notify_senders rest f
  end.

(** ** The message handler *)

(** What a handler reads from outside the process: [uuidv4()] and
    [Date.now()]. *)
Record Env := mkEnv { uuidv4 : string; Date_now : Z }.

Definition validTypes : list string :=
  ["register"; "send_message"; "seen"; "seen_all"].

Definition register_first : ServerFrame :=
  error_frame "Regístrate primero" None.

(** [case "register"] *)
Definition case_register (ws : ConnId) (msg : ClientMsg) : Async unit :=
  match truthy (msg_userId msg) with
  | None => ws_send ws (error_frame "userId requerido" None)
  | Some userId =>
      set_userId ws userId ;;;
      clients_set userId ws ;;;
      deliverPending userId ws
  end.

(** [case "send_message"] *)
Definition case_send_message (env : Env) (ws : ConnId) (msg : ClientMsg)
  : Async unit :=
  userId <- get_userId ws ;;
  match userId with
  | None => ws_send ws register_first
  | Some userId =>
      match truthy (msg_to msg), truthy (msg_content msg) with
      | Some to, Some content =>
          let chatMessage :=
            {| cm_id := uuidv4 env;
               cm_from := userId;
               cm_to := to;
               cm_content := content;
               cm_mediaType := default "text" (truthy (msg_mediaType msg));
               cm_timestamp := Date_now env |} in
          let redisKey := "chat:" +:+ to in
          redis_rpush redisKey (JSON_stringify chatMessage) ;;;
          ws_send ws (message_sent (cm_id chatMessage) to
                                   (cm_timestamp chatMessage)) ;;;
          recipientWs <- clients_get to ;;
          send_if_open recipientWs (new_message chatMessage)
      | _, _ =>
          ws_send ws (error_frame "Campos 'to' y 'content' requeridos" None)
      end
  end.

(** [case "seen"] *)
Definition case_seen (env : Env) (ws : ConnId) (msg : ClientMsg)
  : Async unit :=
  userId <- get_userId ws ;;
  match userId with
  | None => ws_send ws register_first
  | Some userId =>
      match truthy (msg_messageId msg) with
      | None => ws_send ws (error_frame "messageId requerido" None)
      | Some messageId =>
          deleted <- deleteMessageFromRedis userId messageId ;;
          match deleted with
          | Some originalMessage =>
              senderWs <- clients_get (cm_from originalMessage) ;;
              send_if_open senderWs
                (message_seen messageId userId (Date_now env)) ;;;
              ws_send ws (ack_seen messageId true None)
          | None =>
              ws_send ws (ack_seen messageId false
                            (Some "Mensaje no encontrado en la cola"))
          end
      end
  end.

(** [case "seen_all"] *)
Definition case_seen_all (env : Env) (ws : ConnId) : Async unit :=
  userId <- get_userId ws ;;
  match userId with
  | None => ws_send ws register_first
  | Some userId =>
      let redisKey := "chat:" +:+ userId in
      allRaw <- redis_lrange redisKey ;;
      redis_del redisKey ;;;
      let senders := collect_senders allRaw in
      notify_senders senders
        (all_messages_seen userId (length allRaw) (Date_now env)) ;;;
      ws_send ws (ack_seen_all (length allRaw))
  end.

(** [default] of the switch; the template prints [undefined] for a frame
    without [type]. *)
Definition case_default (ws : ConnId) (msg : ClientMsg) : Async unit :=
  ws_send ws
    (error_frame ("Tipo de mensaje desconocido: " +:+
                    default "undefined" (msg_type msg))
                 (Some validTypes)).

Definition type_is (msg : ClientMsg) (t : string) : bool :=
  bool_decide (msg_type msg = Some t).

(** [ws.on("message", async (raw) => ...)].  Reading [msg.type] of [null]
    throws, outside the [try] that guards [JSON.parse]. *)
Definition on_message (env : Env) (ws : ConnId) (raw : RawFrame)
  : Async unit :=
  match raw with
  | NotJson => ws_send ws (error_frame "JSON inválido" None)
  | JsonNull =>
      throw (TypeError "Cannot read properties of null (reading 'type')")
  | Json msg =>
      if type_is msg "register" then case_register ws msg
      else if type_is msg "send_message" then case_send_message env ws msg
      else if type_is msg "seen" then case_seen env ws msg
      else if type_is msg "seen_all" then case_seen_all env ws
      else case_default ws msg
  end.

(** [ws.on("close", ...)]: [if (userId) clients.delete(userId)]. *)
Definition on_close (ws : ConnId) : Async unit :=
  userId <- get_userId ws ;;
  match userId with
  | Some userId => clients_delete userId
  | None => ret ()
  end.

(** ** Events of the process *)

(** [wss.on("connection", (ws, req) => { let userId = null; ... })]: a new
    socket, open, with no identity. *)
Definition on_connection (ws : ConnId) : Async unit := λ σ,
  (Normal (),
   {| clients := clients σ; redis := redis σ;
      connections :=
        <[ws := {| conn_userId := None; conn_readyState := OPEN |}]>
          (connections σ) |}, []).

(** The transport of [ws] is gone: the socket reads [CLOSED]. *)
Definition socket_closed (ws : ConnId) : Async unit := λ σ,
  (Normal (),
   {| clients := clients σ; redis := redis σ;
      connections :=
        alter (λ c, {| conn_userId := conn_userId c;
                       conn_readyState := CLOSED |})
              ws (connections σ) |}, []).

Inductive Event :=
  | Connect (ws : ConnId)
  | Message (env : Env) (ws : ConnId) (raw : RawFrame)
  | Close (ws : ConnId).

Definition handle (e : Event) : Async unit :=
  match e with
  | Connect ws => on_connection ws
  | Message env ws raw => on_message env ws raw
  | Close ws => socket_closed ws ;;; on_close ws
  end.

Definition state_after {A} (r : Completion A * Server * list Sent) : Server :=
  snd (fst r).

Definition sent_by {A} (r : Completion A * Server * list Sent) : list Sent :=
  snd r.

Definition completion_of {A} (r : Completion A * Server * list Sent)
  : Completion A :=
  fst (fst r).

(** An event can happen on a socket the server knows; a new socket is a
    fresh object. *)
Definition enabled (e : Event) (σ : Server) : Prop :=
  match e with
  | Connect ws => connections σ !! ws = None
  | Message _ ws _ => is_Some (connections σ !! ws)
  | Close ws => is_Some (connections σ !! ws)
  end.

Inductive reachable : Server → Prop :=
  | reachable_init : reachable init
  | reachable_step σ e :
      reachable σ → enabled e σ → reachable (state_after (handle e σ)).

(** [first_match messageId l i m]: entry [i] of [l] is the text of [m], [m]
    has the id, and no earlier entry parses to a message with that id: the
    entry at which the loop of [deleteMessageFromRedis] stops. *)
Definition first_match (messageId : string) (l : list RedisValue)
    (i : nat) (m : ChatMessage) : Prop :=
  l !! i = Some (Stringified m) ∧ cm_id m = messageId ∧
  ∀ j m', j < i → l !! j = Some (Stringified m') → cm_id m' ≠ messageId.

(** No entry of [l] parses to a message with the id. *)
Definition no_match (messageId : string) (l : list RedisValue) : Prop :=
  ∀ m, Stringified m ∈ l → cm_id m ≠ messageId.

(** The queue of an identity: the Redis list under [chat:<identity>]. *)
Definition queue (σ : Server) (u : string) : list RedisValue :=
  lrange_all (redis σ) ("chat:" +:+ u).

(** The socket on which an identity is connected now: the one [clients]
    holds for it, when that socket is open. *)
Definition live (σ : Server) (u : string) : option ConnId :=
  w ← clients σ !! u;
  c ← connections σ !! w;
  if decide (conn_readyState c = OPEN) then Some w else None.

(** One frame for each identity of [senders] that is live, in order. *)
Definition notifications (σ : Server) (senders : list string)
    (f : ServerFrame) : list Sent :=
  omap (λ u, w ← live σ u; Some (w, f)) senders.

(** The identity a socket is registered under, if any. *)
Definition registered (σ : Server) (ws : ConnId) : option string :=
  c ← connections σ !! ws; conn_userId c.

(** Every text in Redis is the text of a chat message. *)
Definition texts_parse (σ : Server) : Prop :=
  ∀ key raw, raw ∈ lrange_all (redis σ) key → is_Some (JSON_parse raw).

(** [m] keeps the invariant [I]. *)
Definition preserves {A} (I : Server → Prop) (m : Async A) : Prop :=
  ∀ σ, I σ → I (state_after (m σ)).

(** A frame the protocol refuses in state [σ]: any frame but [register]
    before registration, a type that is not one of [validTypes], or a
    required field that is absent or empty. *)
Definition refused (σ : Server) (ws : ConnId) (msg : ClientMsg) : Prop :=
  (registered σ ws = None ∧ msg_type msg ≠ Some "register") ∨
  (∀ t, t ∈ validTypes → msg_type msg ≠ Some t) ∨
  (msg_type msg = Some "register" ∧ truthy (msg_userId msg) = None) ∨
  (msg_type msg = Some "send_message" ∧
   (truthy (msg_to msg) = None ∨ truthy (msg_content msg) = None)) ∨
  (msg_type msg = Some "seen" ∧ truthy (msg_messageId msg) = None).

(** The state after a sequence of events. *)
Fixpoint run (events : list Event) (σ : Server) : Server :=
  match events with
  | [] => σ
  | e :: rest => run rest (state_after (handle e σ))
  end.

(** The frames of the protocol, as a client writes them. *)
Definition frame_register (userId : string) : RawFrame :=
  Json {| msg_type := Some "register"; msg_userId := Some userId;
          msg_to := None; msg_content := None; msg_mediaType := None;
          msg_messageId := None |}.

Definition frame_send_message (to content : string) : RawFrame :=
  Json {| msg_type := Some "send_message"; msg_userId := None;
          msg_to := Some to; msg_content := Some content;
          msg_mediaType := None; msg_messageId := None |}.

Definition frame_seen (messageId : string) : RawFrame :=
  Json {| msg_type := Some "seen"; msg_userId := None; msg_to := None;
          msg_content := None; msg_mediaType := None;
          msg_messageId := Some messageId |}.

Definition frame_seen_all : RawFrame :=
  Json {| msg_type := Some "seen_all"; msg_userId := None; msg_to := None;
          msg_content := None; msg_mediaType := None;
          msg_messageId := None |}.

(** [e] is a [seen] or [seen_all] frame from a socket registered as
    [u]. *)
Definition acknowledges (e : Event) (σ : Server) (u : string) : Prop :=
  ∃ env ws msg,
    e = Message env ws (Json msg) ∧ registered σ ws = Some u ∧
    (msg_type msg = Some "seen" ∨ msg_type msg = Some "seen_all").

End Relay.

(** Traces of the server used as examples. *)
Module Scenario.
Import Relay.

Definition env1 : Env := {| uuidv4 := "m1"; Date_now := 7 |}.

(** The message Alice sends to Bob under [env1]. *)
Definition the_message : ChatMessage :=
  {| cm_id := "m1"; cm_from := "alice"; cm_to := "bob"; cm_content := "C";
     cm_mediaType := "text"; cm_timestamp := 7 |}.

(** Alice registers on socket 0 and sends ["C"] to Bob, who is away. *)
Definition alice_sent : Server :=
  run [Connect 0; Message env1 0 (frame_register "alice");
       Message env1 0 (frame_send_message "bob" "C")] init.

(** Then Bob registers on socket 1. *)
Definition alice_sent_bob_registered : Server :=
  run [Connect 1; Message env1 1 (frame_register "bob")] alice_sent.

(** The same, but Alice's socket closed before Bob came. *)
Definition alice_gone_bob_registered : Server :=
  run [Close 0; Connect 1; Message env1 1 (frame_register "bob")] alice_sent.

(** Socket 0 registers ["u"], then socket 1 registers ["u"] too. *)
Definition taken_over : Server :=
  run [Connect 0; Message env1 0 (frame_register "u");
       Connect 1; Message env1 1 (frame_register "u")] init.

End Scenario.

(** * Password based encryption *)

(** ** What the platform provides *)

(** The primitives of Node's [crypto] and of the Web Crypto API, shared by
    both modules: PBKDF2 (which takes the password as a text and encodes
    it), AES-256-GCM (ciphertext and tag apart, as Node gives them) and the
    UTF-8 codec ([Buffer.from(s, 'utf8')] and [TextEncoder] to encode,
    [toString('utf8')] and [TextDecoder] to decode). *)
Class Platform := {
  pbkdf2 : string → list byte → N → nat → string → list byte;
  aes_256_gcm_encrypt :
    list byte → list byte → list byte → list byte → list byte * list byte;
  aes_256_gcm_decrypt :
    list byte → list byte → list byte → list byte → list byte →
    option (list byte);
  utf8_encode : string → list byte;
  utf8_decode : list byte → string
}.

(** The contract of the primitives.  [pbkdf2] gives as many bytes as asked;
    GCM keeps the length of the data, gives a tag of 16 bytes and decrypts
    what it encrypted under the same key, nonce and associated data; in
    UTF-8 the empty text alone has no bytes.  That decoding gives back the
    text that was encoded is not part of the contract: it fails of a text
    with a lone surrogate, and of one that begins with a byte order mark
    where the decoder drops it. *)
Class PlatformSpec (P : Platform) : Prop := {
  pbkdf2_length pw salt it n d : length (pbkdf2 pw salt it n d) = n;
  gcm_ciphertext_length key iv aad data :
    length (fst (aes_256_gcm_encrypt key iv aad data)) = length data;
  gcm_tag_length key iv aad data :
    length (snd (aes_256_gcm_encrypt key iv aad data)) = 16;
  gcm_decrypt_encrypt key iv aad data :
    aes_256_gcm_decrypt key iv aad
      (fst (aes_256_gcm_encrypt key iv aad data))
      (snd (aes_256_gcm_encrypt key iv aad data)) = Some data;
  utf8_encode_empty : utf8_encode "" = [];
  utf8_encode_nil s : utf8_encode s = [] → s = ""
}.

#[global] Instance byte_eq_dec : EqDecision byte := Byte.byte_eq_dec.

(** The random source: [source i] is the i-th byte it will give and
    [cursor] counts the bytes given so far. *)
Record Entropy := mkEntropy { source : nat → byte; cursor : nat }.

Inductive CryptoError :=
  | CTypeError (message : string)
  | CError (message : string)
  | AuthenticationFailed
  | InvalidCharacterError.

Inductive Result (A : Type) :=
  | Ok (a : A)
  | Err (e : CryptoError).
Arguments Ok {A} a.
Arguments Err {A} e.

(** A function that may draw random bytes and may throw. *)
Definition Crypto (A : Type) : Type := Entropy → Result A * Entropy.

Definition cret {A} (a : A) : Crypto A := λ e, (Ok a, e).

Definition cthrow {A} (err : CryptoError) : Crypto A := λ e, (Err err, e).

Definition cbind {A B} (m : Crypto A) (k : A → Crypto B) : Crypto B := λ e,
  match m e with
  | (Ok a, e1) => k a e1
  | (Err err, e1) => (Err err, e1)
  end.

(** The next [n] bytes of the source, and the source after them. *)
Definition draw (n : nat) (e : Entropy) : list byte :=
  map (source e) (seq (cursor e) n).

Definition advance (n : nat) (e : Entropy) : Entropy :=
  {| source := source e; cursor := cursor e + n |}.

(** [crypto.randomBytes(n)] and [crypto.getRandomValues(new Uint8Array(n))] *)
Definition randomBytes (n : nat) : Crypto (list byte) := λ e,
  (Ok (draw n e), advance n e).

(** A [Buffer] or a string, where the code accepts both. *)
Inductive Data :=
  | Buf (b : list byte)
  | Str (s : string).

(** ** base64 of the browser: [btoa] and [atob] *)

Module Base64.

Definition alphabet : string :=
  "ABCDEFGHIJKLMNOPQRSTUVWXYZabcdefghijklmnopqrstuvwxyz0123456789+/".

Definition pad : ascii := "="%char.

Definition sextet_char (n : N) : ascii :=
  default "A"%char (String.get (N.to_nat n) alphabet).

Definition char_sextet (c : ascii) : option N :=
  let n := N_of_ascii c in
  if (65 <=? n)%N && (n <=? 90)%N then Some (n - 65)%N
  else if (97 <=? n)%N && (n <=? 122)%N then Some (n - 71)%N
  else if (48 <=? n)%N && (n <=? 57)%N then Some (n + 4)%N
  else if (n =? 43)%N then Some 62%N
  else if (n =? 47)%N then Some 63%N
  else None.

(** The 24 bits of three bytes, most significant first. *)
Definition group (a b c : ascii) : N :=
  (N_of_ascii a * 65536 + N_of_ascii b * 256 + N_of_ascii c)%N.

Definition sextet (i : N) (n : N) : N := ((n / 64 ^ (3 - i)) mod 64)%N.

Definition octet (i : N) (n : N) : ascii :=
  ascii_of_N ((n / 256 ^ (2 - i)) mod 256).

(** [btoa(bin)] on a binary string, a string of characters below 256. *)
Fixpoint btoa (bin : string) : string :=
  match bin with
  | String a (String b (String c rest)) =>
      let n := group a b c in
      String (sextet_char (sextet 0 n)) (String (sextet_char (sextet 1 n))
        (String (sextet_char (sextet 2 n)) (String (sextet_char (sextet 3 n))
          (btoa rest))))
  | String a (String b EmptyString) =>
      let n := group a b zero in
      String (sextet_char (sextet 0 n)) (String (sextet_char (sextet 1 n))
        (String (sextet_char (sextet 2 n)) (String pad EmptyString)))
  | String a EmptyString =>
      let n := group a zero zero in
      String (sextet_char (sextet 0 n)) (String (sextet_char (sextet 1 n))
        (String pad (String pad EmptyString)))
  | EmptyString => EmptyString
  end.

(** A text that passes any text transport: letters, digits, [+], [/] and
    the padding [=]. *)
Definition is_base64_char (c : ascii) : bool :=
  match char_sextet c with
  | Some _ => true
  | None => Ascii.eqb c pad
  end.

Fixpoint text_safe (s : string) : bool :=
  match s with
  | EmptyString => true
  | String c rest => is_base64_char c && text_safe rest
  end.

Definition ungroup (s0 s1 s2 s3 : N) : N :=
  (((s0 * 64 + s1) * 64 + s2) * 64 + s3)%N.

(** [atob(str)] on padded base64 without white space, which is what
    [btoa] writes; [None] is its [InvalidCharacterError].  (The platform
    also accepts white space and missing padding.) *)
Fixpoint atob (str : string) : option string :=
  match str with
  | EmptyString => Some EmptyString
  | String c0 (String c1 (String c2 (String c3 rest))) =>
      match char_sextet c0, char_sextet c1 with
      | Some s0, Some s1 =>
          match char_sextet c2, char_sextet c3, rest with
          | Some s2, Some s3, _ =>
              let n := ungroup s0 s1 s2 s3 in
              option_map
                (λ out, String (octet 0 n) (String (octet 1 n)
                                  (String (octet 2 n) out)))
                (atob rest)
          | Some s2, None, EmptyString =>
              if Ascii.eqb c3 pad then
                let n := ungroup s0 s1 s2 0 in
                Some (String (octet 0 n) (String (octet 1 n) EmptyString))
              else None
          | None, None, EmptyString =>
              if Ascii.eqb c2 pad && Ascii.eqb c3 pad then
                let n := ungroup s0 s1 0 0 in
                Some (String (octet 0 n) EmptyString)
              else None
          | _, _, _ => None
          end
      | _, _ => None
      end
  | _ => None
  end.

End Base64.

(** ** crypto-module.js (Node) *)

Module CryptoModule.

Section WithPlatform.
Context {P : Platform}.

Notation "x <- m ;; k" := (cbind m (λ x, k))
  (at level 100, m at next level, right associativity).

Definition IV_LENGTH : nat := 12.
Definition AUTH_TAG_LENGTH : nat := 16.
Definition SALT_LENGTH : nat := 32.
Definition KEY_LENGTH : nat := 32.
Definition PBKDF2_ITERATIONS : N := 600000.
Definition PBKDF2_DIGEST : string := "sha512".

Record DerivedKey := mkDerivedKey {
  key : list byte;
  salt : list byte;
  iterations : N
}.

Record Encrypted := mkEncrypted {
  encrypted : list byte;
  iv : list byte;
  authTag : list byte
}.

(** [Buffer.isBuffer(x) ? x : Buffer.from(x, 'utf8')] *)
Definition to_buffer (x : Data) : list byte :=
  match x with
  | Buf b => b
  | Str s => utf8_encode s
  end.

(** [if (aad)]: an absent value and the empty string are falsy, a [Buffer]
    never is. *)
Definition aad_bytes (aad : option Data) : list byte :=
  match aad with
  | None | Some (Str EmptyString) => []
  | Some a => to_buffer a
  end.

(** [deriveKey(password, salt, iterations = PBKDF2_ITERATIONS)] *)
Definition deriveKey (password : string) (salt : option (list byte))
    (iterations : N) : Crypto DerivedKey :=
  match password with
  | EmptyString => cthrow (CTypeError "Password must be a non-empty string.")
  | _ =>
      usedSalt <- match salt with
                  | Some s => cret s
                  | None => randomBytes SALT_LENGTH
                  end ;;
      cret {| key := pbkdf2 password usedSalt iterations KEY_LENGTH
                            PBKDF2_DIGEST;
              salt := usedSalt;
              iterations := iterations |}
  end.

(** [encrypt(plaintext, key, aad)] *)
Definition encrypt (plaintext : Data) (key : list byte) (aad : option Data)
  : Crypto Encrypted :=
  if negb (length key =? KEY_LENGTH)%nat then
    cthrow (CTypeError "Key must be a 32-byte Buffer.")
  else
    iv <- randomBytes IV_LENGTH ;;
    let data := to_buffer plaintext in
    let sealed := aes_256_gcm_encrypt key iv (aad_bytes aad) data in
    let ciphertext := fst sealed in
    let authTag := snd sealed in
    let encrypted := iv ++ authTag ++ ciphertext in
    cret {| encrypted := encrypted; iv := iv; authTag := authTag |}.

(** [decrypt(encrypted, key, aad)] *)
Definition decrypt (encrypted key : list byte) (aad : option Data)
  : Crypto (list byte) :=
  if negb (length key =? KEY_LENGTH)%nat then
    cthrow (CTypeError "Key must be a 32-byte Buffer.")
  else if (length encrypted <? IV_LENGTH + AUTH_TAG_LENGTH + 1)%nat then
    cthrow (CTypeError "Encrypted payload is too short or not a Buffer.")
  else
    let iv := take IV_LENGTH encrypted in
    let authTag := take AUTH_TAG_LENGTH (drop IV_LENGTH encrypted) in
    let ciphertext := drop (IV_LENGTH + AUTH_TAG_LENGTH) encrypted in
    match aes_256_gcm_decrypt key iv (aad_bytes aad) ciphertext authTag with
    | Some plain => cret plain
    | None => cthrow AuthenticationFailed
    end.

(** [encryptWithPassword(plaintext, password)] *)
Definition encryptWithPassword (plaintext password : string)
  : Crypto (list byte) :=
  derived <- deriveKey password None PBKDF2_ITERATIONS ;;
  sealed <- encrypt (Str plaintext) (key derived) None ;;
  cret (salt derived ++ encrypted sealed).

(** [decryptWithPassword(payload, password)] *)
Definition decryptWithPassword (payload : list byte) (password : string)
  : Crypto string :=
  if (length payload <? SALT_LENGTH + IV_LENGTH + AUTH_TAG_LENGTH + 1)%nat then
    cthrow (CTypeError "Payload is too short or not a Buffer.")
  else
    let salt := take SALT_LENGTH payload in
    let encrypted := drop SALT_LENGTH payload in
    derived <- deriveKey password (Some salt) PBKDF2_ITERATIONS ;;
    plain <- decrypt encrypted (key derived) None ;;
    cret (utf8_decode plain).

End WithPlatform.

End CryptoModule.

(** ** crypto-browser.js *)

Module CryptoBrowser.

Section WithPlatform.
Context {P : Platform}.

Notation "x <- m ;; k" := (cbind m (λ x, k))
  (at level 100, m at next level, right associativity).

Definition IV_LENGTH : nat := 12.
Definition AUTH_TAG_LENGTH : nat := 16.
Definition SALT_LENGTH : nat := 32.
Definition KEY_LENGTH : nat := 32.
Definition PBKDF2_ITERATIONS : N := 100000.

Record DerivedKey := mkDerivedKey {
  key : list byte;
  salt : list byte
}.

(** [getRandomBytes(len)] *)
Definition getRandomBytes (len : nat) : Crypto (list byte) :=
  randomBytes len.

(** [concatBuffers(...buffers)] *)
Definition concatBuffers (buffers : list (list byte)) : list byte :=
  concat buffers.

(** [toBase64(uint8)] *)
Definition toBase64 (uint8 : list byte) : string :=
  Base64.btoa (String.string_of_list_byte uint8).

(** [fromBase64(str)] *)
Definition fromBase64 (str : string) : Crypto (list byte) :=
  match Base64.atob str with
  | Some bin => cret (String.list_byte_of_string bin)
  | None => cthrow InvalidCharacterError
  end.

(** [crypto.subtle.encrypt] with AES-GCM and a tag of 128 bits: the
    ciphertext followed by the tag. *)
Definition subtle_encrypt (key iv data : list byte) : list byte :=
  let sealed := aes_256_gcm_encrypt key iv [] data in
  fst sealed ++ snd sealed.

(** [crypto.subtle.decrypt]: the last 16 bytes are the tag; [None] is its
    [OperationError]. *)
Definition subtle_decrypt (key iv data : list byte) : option (list byte) :=
  if (length data <? AUTH_TAG_LENGTH)%nat then None
  else
    let n := length data - AUTH_TAG_LENGTH in
    aes_256_gcm_decrypt key iv [] (take n data) (drop n data).

(** [deriveKey(password, salt)]: [importKey] of the encoded password and
    [deriveKey] are the one call of [pbkdf2], and the [CryptoKey] is held as
    the 256 bits it derives. *)
Definition deriveKey (password : string) (salt : option (list byte))
  : Crypto DerivedKey :=
  usedSalt <- match salt with
              | Some s => cret s
              | None => getRandomBytes SALT_LENGTH
              end ;;
  cret {| key := pbkdf2 password usedSalt PBKDF2_ITERATIONS KEY_LENGTH
                        "SHA-512";
          salt := usedSalt |}.

(** [encryptWithPassword(plaintext, password)] *)
Definition encryptWithPassword (plaintext password : string)
  : Crypto string :=
  derived <- deriveKey password None ;;
  iv <- getRandomBytes IV_LENGTH ;;
  let ciphertextWithTag :=
    subtle_encrypt (key derived) iv (utf8_encode plaintext) in
  let packed := concatBuffers [salt derived; iv; ciphertextWithTag] in
  cret (toBase64 packed).

(** [decryptWithPassword(payload, password)] *)
Definition decryptWithPassword (payload password : string) : Crypto string :=
  data <- fromBase64 payload ;;
  if (length data <? SALT_LENGTH + IV_LENGTH + AUTH_TAG_LENGTH + 1)%nat then
    cthrow (CError "Payload too short.")
  else
    let salt := take SALT_LENGTH data in
    let iv := take IV_LENGTH (drop SALT_LENGTH data) in
    let ciphertext := drop (SALT_LENGTH + IV_LENGTH) data in
    derived <- deriveKey password (Some salt) ;;
    match subtle_decrypt (key derived) iv ciphertext with
    | Some plainBuf => cret (utf8_decode plainBuf)
    | None => cthrow AuthenticationFailed
    end.

End WithPlatform.

End CryptoBrowser.

(** * The ghost-chat client *)

Module GhostChat.

Section WithPlatform.
Context {P : Platform}.

Definition RECONNECT_BASE_MS : Z := 1000.
Definition RECONNECT_MAX_MS : Z := 15000.

(** The CSS label of a rendered message: ['sent'] or ['received']. *)
Inductive Label := sent | received.

#[global] Instance Label_eq_dec : EqDecision Label.
Proof. solve_decision. Defined.

(** Frames the client sends. *)
Inductive ClientFrame :=
  | register (userId : option string)
  | seen (messageId : string).

(** What a handler does to the outside, in order. *)
Inductive Effect :=
  | ws_send (f : ClientFrame)
  | addMessage (text : string) (type : Label)
               (chatMsg : option Relay.ChatMessage)
  | addSystemMessage (text : string)
  | updateConnectionUI (connected : bool)
  | new_WebSocket
  | ws_close
  | setTimeout (delay : Z)
  | clearTimeout.

(** The variables of the module.  [ws] is [null] or the state of the
    current socket; [reconnectTimer] is [null] or the pending timer, held
    as its delay.  [reconnectAttempts] is a count: the double that holds it
    in JavaScript is exact far beyond any number of attempts, and
    [Math.min(1000 * Math.pow(2, n), 15000)] on doubles is the integer
    minimum below, also where [Math.pow] overflows to [Infinity]. *)
Record State := mkState {
  ws : option Relay.ReadyState;
  sessionPassword : option string;
  userId : option string;
  recipientId : option string;
  isConnected : bool;
  reconnectAttempts : nat;
  reconnectTimer : option Z;
  entropy : Entropy
}.

Definition set_ws (w : option Relay.ReadyState) (s : State) : State :=
  mkState w (sessionPassword s) (userId s) (recipientId s) (isConnected s)
          (reconnectAttempts s) (reconnectTimer s) (entropy s).

Definition set_isConnected (b : bool) (s : State) : State :=
  mkState (ws s) (sessionPassword s) (userId s) (recipientId s) b
          (reconnectAttempts s) (reconnectTimer s) (entropy s).

Definition set_reconnectAttempts (n : nat) (s : State) : State :=
  mkState (ws s) (sessionPassword s) (userId s) (recipientId s)
          (isConnected s) n (reconnectTimer s) (entropy s).

Definition set_reconnectTimer (t : option Z) (s : State) : State :=
  mkState (ws s) (sessionPassword s) (userId s) (recipientId s)
          (isConnected s) (reconnectAttempts s) t (entropy s).

(** A handler: the state it leaves and what it did. *)
Abbreviation Handler := (State → State * list Effect).

Definition andThen (f g : Handler) : Handler := λ s,
  let r1 := f s in
  let r2 := g (fst r1) in
  (fst r2, snd r1 ++ snd r2).

Definition effect (e : Effect) : Handler := λ s, (s, [e]).

Definition modify (f : State → State) : Handler := λ s, (f s, []).

Definition skip : Handler := λ s, (s, []).

Infix ">>" := andThen (at level 61, left associativity).

(** [scheduleReconnect()] *)
Definition scheduleReconnect : Handler := λ s,
  match reconnectTimer s with
  | Some _ => (s, [])
  | None =>
      let delay :=
        Z.min (RECONNECT_BASE_MS * 2 ^ Z.of_nat (reconnectAttempts s))
              RECONNECT_MAX_MS in
      (set_reconnectTimer (Some delay)
         (set_reconnectAttempts (S (reconnectAttempts s)) s),
       [setTimeout delay])
  end.

Definition ws_is_live (s : State) : bool :=
  match ws s with
  | Some Relay.OPEN | Some Relay.CONNECTING => true
  | _ => false
  end.

Definition ws_is_open (s : State) : bool :=
  match ws s with
  | Some Relay.OPEN => true
  | _ => false
  end.

(** [connectWebSocket()]; [constructed] tells whether [new WebSocket(url)]
    returns rather than throws. *)
Definition connectWebSocket (constructed : bool) : Handler := λ s,
  if ws_is_live s then (s, [])
  else if constructed then
    (set_ws (Some Relay.CONNECTING) s, [new_WebSocket])
  else
    (effect (addSystemMessage "⚠ No se pudo crear la conexión WebSocket") >>
     effect (updateConnectionUI false) >>
     scheduleReconnect) s.

(** The callback given to [setTimeout]. *)
Definition reconnectTimer_fired (constructed : bool) : Handler := λ s,
  let s1 := set_reconnectTimer None s in
  match sessionPassword s1, userId s1 with
  | Some (String _ _), Some (String _ _) => connectWebSocket constructed s1
  | _, _ => (s1, [])
  end.

(** The [open] listener.  Without a current socket [ws.send] throws and the
    listener stops there. *)
Definition on_open : Handler := λ s,
  (modify (set_isConnected true) >>
   modify (set_reconnectAttempts 0) >>
   effect (updateConnectionUI true) >>
   (λ s1, match ws s1 with
          | Some _ =>
              (effect (ws_send (register (userId s1))) >>
               effect (addSystemMessage
                         ("Conexión establecida · registrado como " +:+
                            default "null" (userId s1)))) s1
          | None => (s1, [])
          end)) s.

(** The [close] listener. *)
Definition on_close : Handler :=
  modify (set_isConnected false) >>
  effect (updateConnectionUI false) >>
  effect (addSystemMessage "Conexión cerrada") >>
  scheduleReconnect.

(** The [error] listener. *)
Definition on_error : Handler :=
  modify (set_isConnected false) >>
  effect (updateConnectionUI false).

(** [CryptoBrowser.decryptWithPassword(chatMsg.content, sessionPassword)];
    a [null] password is encoded as the text [null]. *)
Definition decrypt_content (chatMsg : Relay.ChatMessage) (s : State)
  : Result string :=
  fst (CryptoBrowser.decryptWithPassword (Relay.cm_content chatMsg)
         (default "null" (sessionPassword s)) (entropy s)).

(** [handleIncomingMessage(chatMsg)] *)
Definition handleIncomingMessage (chatMsg : Relay.ChatMessage) : Handler :=
  λ s,
  let displayText :=
    match decrypt_content chatMsg s with
    | Ok text => text
    | Err _ => "Ruido ilegible"
    end in
  let label :=
    if bool_decide (Some (Relay.cm_from chatMsg) = userId s)
    then sent else received in
  (effect (addMessage displayText label (Some chatMsg)) >>
   (if bool_decide (label = received) && ws_is_open s
    then effect (ws_send (seen (Relay.cm_id chatMsg)))
    else skip)) s.

(** The [for (const m of msg.messages)] loop of the [message] listener. *)
Fixpoint handle_each (messages : list Relay.ChatMessage) : Handler :=
  match messages with
  | [] => skip
  | m :: rest => handleIncomingMessage m >> handle_each rest
  end.

(** The [message] listener; [None] is a frame [JSON.parse] rejects. *)
Definition on_message (frame : option Relay.ServerFrame) : Handler :=
  match frame with
  | None => skip
  | Some (Relay.new_message message) => handleIncomingMessage message
  | Some (Relay.pending_messages messages count) =>
      match messages with
      | [] => skip
      | _ =>
          effect (addSystemMessage (pretty count +:+ " mensaje(s) pendiente(s)"))
          >> handle_each messages
      end
  | Some (Relay.message_sent _ _ _) => skip
  | Some (Relay.message_seen _ seenBy _) =>
      effect (addSystemMessage ("✓✓ Mensaje visto por " +:+ seenBy))
  | Some (Relay.all_messages_seen seenBy _ _) =>
      effect (addSystemMessage ("✓✓ " +:+ seenBy +:+ " vio todos los mensajes"))
  | Some (Relay.ack_seen _ _ _) | Some (Relay.ack_seen_all _) => skip
  | Some (Relay.error_frame error _) =>
      effect (addSystemMessage
                ("⚠ " +:+ (if decide (error = "") then "Error desconocido"
                           else error)))
  end.

(** [handlePasswordSubmit()], on the trimmed values of the three inputs. *)
Definition handlePasswordSubmit (alias pw to : string) (constructed : bool)
  : Handler := λ s,
  match alias, pw with
  | String _ _, String _ _ =>
      (connectWebSocket constructed >>
       effect (addSystemMessage
                 "Sesión cifrada iniciada · clave efímera en memoria"))
        (mkState (ws s) (Some pw) (Some alias) (Relay.truthy (Some to))
                 (isConnected s) (reconnectAttempts s) (reconnectTimer s)
                 (entropy s))
  | _, _ => (s, [])
  end.

(** [destroy()], for the variables kept here. *)
Definition destroy : Handler := λ s,
  (mkState None None None None false 0 None (entropy s),
   match reconnectTimer s with Some _ => [clearTimeout] | None => [] end ++
   match ws s with Some _ => [ws_close] | None => [] end).

(** ** Events of a session *)

Inductive Event :=
  | PasswordSubmit (alias pw to : string) (constructed : bool)
  | TimerFired (constructed : bool)
  | SocketOpen
  | SocketClose
  | SocketError
  | Frame (frame : option Relay.ServerFrame)
  | Destroy.

(** The socket changes state before its listener runs. *)
Definition socket_becomes (r : Relay.ReadyState) : Handler :=
  modify (λ s, match ws s with Some _ => set_ws (Some r) s | None => s end).

Definition handle (e : Event) : Handler :=
  match e with
  | PasswordSubmit alias pw to constructed =>
      handlePasswordSubmit alias pw to constructed
  | TimerFired constructed => reconnectTimer_fired constructed
  | SocketOpen => socket_becomes Relay.OPEN >> on_open
  | SocketClose => socket_becomes Relay.CLOSED >> on_close
  | SocketError => on_error
  | Frame frame => on_message frame
  | Destroy => destroy
  end.

Fixpoint run (events : list Event) : Handler :=
  match events with
  | [] => skip
  | e :: rest => handle e >> run rest
  end.

(** The frames given to [ws.send], in order. *)
Definition sent_frames (effects : list Effect) : list ClientFrame :=
  omap (λ e, match e with ws_send f => Some f | _ => None end) effects.

(** The delays given to [setTimeout], in order. *)
Definition delays (effects : list Effect) : list Z :=
  omap (λ e, match e with setTimeout d => Some d | _ => None end) effects.

(** The events that set [reconnectAttempts] back to 0. *)
Definition resets (e : Event) : bool :=
  match e with
  | SocketOpen | Destroy => true
  | _ => false
  end.

End WithPlatform.

End GhostChat.

(** The [handleIncomingMessage] of the client with media messages. *)
Module GhostChatMedia.

Section WithPlatform.
Context {P : Platform}.

Inductive Effect :=
  | ws_send (f : GhostChat.ClientFrame)
  | addMessage (content mediaType : string) (type : GhostChat.Label)
               (chatMsg : option Relay.ChatMessage).

(** [handleIncomingMessage(chatMsg)]: [decrypted] is [null] after a failed
    decryption, and [!decrypted] also holds for the empty text. *)
Definition handleIncomingMessage (chatMsg : Relay.ChatMessage)
    (s : GhostChat.State) : GhostChat.State * list Effect :=
  let decrypted :=
    match GhostChat.decrypt_content chatMsg s with
    | Ok text => Some text
    | Err _ => None
    end in
  let label :=
    if bool_decide (Some (Relay.cm_from chatMsg) = GhostChat.userId s)
    then GhostChat.sent else GhostChat.received in
  let mediaType :=
    default "text" (Relay.truthy (Some (Relay.cm_mediaType chatMsg))) in
  (s,
   [match Relay.truthy decrypted with
    | None => addMessage "Ruido ilegible" "text" label (Some chatMsg)
    | Some text => addMessage text mediaType label (Some chatMsg)
    end] ++
   (if bool_decide (label = GhostChat.received) && GhostChat.ws_is_open s
    then [ws_send (GhostChat.seen (Relay.cm_id chatMsg))]
    else [])).

End WithPlatform.

End GhostChatMedia.

(** Sessions of the client used as examples. *)
Module Session.
Import GhostChat.

(** Alice's session while its first socket is connecting. *)
Definition connecting : State :=
  {| ws := Some Relay.CONNECTING; sessionPassword := Some "clave";
     userId := Some "alice"; recipientId := Some "bob";
     isConnected := false; reconnectAttempts := 0; reconnectTimer := None;
     entropy := {| source := λ _, x00; cursor := 0 |} |}.

(** Alice's session with its socket open. *)
Definition connected : State :=
  {| ws := Some Relay.OPEN; sessionPassword := Some "clave";
     userId := Some "alice"; recipientId := Some "bob";
     isConnected := true; reconnectAttempts := 0; reconnectTimer := None;
     entropy := {| source := λ _, x00; cursor := 0 |} |}.

(** Six attempts that fail one after the other: the socket closes, the
    timer fires and a new socket is made, which closes again. *)
Definition six_failures : list Event :=
  [SocketClose; TimerFired true; SocketClose; TimerFired true;
   SocketClose; TimerFired true; SocketClose; TimerFired true;
   SocketClose; TimerFired true; SocketClose; TimerFired true].

(** A message Bob sent to Alice, and one Alice sent to herself; the
    content of neither decrypts. *)
Definition from_bob : Relay.ChatMessage :=
  {| Relay.cm_id := "m1"; Relay.cm_from := "bob"; Relay.cm_to := "alice";
     Relay.cm_content := "C"; Relay.cm_mediaType := "text";
     Relay.cm_timestamp := 7 |}.

Definition from_herself : Relay.ChatMessage :=
  {| Relay.cm_id := "m2"; Relay.cm_from := "alice"; Relay.cm_to := "alice";
     Relay.cm_content := "C"; Relay.cm_mediaType := "text";
     Relay.cm_timestamp := 7 |}.

End Session.

(** * A platform to run the definitions on

    A small executable instance of [Platform]: a one-byte pad in place of
    AES and a checksum in place of the tag.  It has the contract of
    [PlatformSpec] and nothing of the strength of the real primitives. *)

Module SamplePlatform.

Definition xor_byte (a b : byte) : byte :=
  default x00 (Byte.of_N (N.lxor (Byte.to_N a) (Byte.to_N b))).

Definition checksum (l : list byte) : byte := foldr xor_byte x00 l.

Definition sample_pbkdf2 (password : string) (salt : list byte) (_ : N)
    (keylen : nat) (_ : string) : list byte :=
  let seed := checksum (String.list_byte_of_string password ++ salt) in
  map (λ i, xor_byte seed (default x00 (Byte.of_nat (i mod 256))))
      (seq 0 keylen).

(** The pad: the first byte of the key with the first byte of the nonce. *)
Definition sample_pad (key iv : list byte) : byte :=
  xor_byte (default x00 (head key)) (default x00 (head iv)).

Definition sample_tag (key iv aad ciphertext : list byte) : list byte :=
  replicate 16 (checksum (sample_pad key iv :: aad ++ ciphertext)).

Definition sample_encrypt (key iv aad data : list byte)
  : list byte * list byte :=
  let ciphertext := map (xor_byte (sample_pad key iv)) data in
  (ciphertext, sample_tag key iv aad ciphertext).

Definition sample_decrypt (key iv aad ciphertext tag : list byte)
  : option (list byte) :=
  if decide (tag = sample_tag key iv aad ciphertext)
  then Some (map (xor_byte (sample_pad key iv)) ciphertext)
  else None.

#[global] Instance sample : Platform := {|
  pbkdf2 := sample_pbkdf2;
  aes_256_gcm_encrypt := sample_encrypt;
  aes_256_gcm_decrypt := sample_decrypt;
  utf8_encode := String.list_byte_of_string;
  utf8_decode := String.string_of_list_byte
|}.

(** A random source that counts: byte [i] is [i mod 256]. *)
Definition counting : Entropy :=
  {| source := λ i, default x00 (Byte.of_nat (i mod 256)); cursor := 0 |}.

End SamplePlatform.

(** * More of the relay server *)

Module RelayPaths.
Import Relay.

(** [retryStrategy: (times) => Math.min(times * 200, 5000)], the delay in
    milliseconds before the Redis client connects again. *)
Definition retryStrategy (times : Z) : Z := Z.min (times * 200) 5000.




(** The message [send_message] builds. *)
Definition chatMessage_of (env : Env) (userId to content : string)
    (msg : ClientMsg) : ChatMessage :=
  {| cm_id := uuidv4 env;
     cm_from := userId;
     cm_to := to;
     cm_content := content;
     cm_mediaType := default "text" (truthy (msg_mediaType msg));
     cm_timestamp := Date_now env |}.







(** A second message, from Alice to Bob, and the clock at which Bob
    acknowledges it. *)
Definition env2 : Env := {| uuidv4 := "m2"; Date_now := 9 |}.
Definition env3 : Env := {| uuidv4 := "m3"; Date_now := 11 |}.

Definition second_message : ChatMessage :=
  {| cm_id := "m2"; cm_from := "alice"; cm_to := "bob"; cm_content := "D";
     cm_mediaType := "text"; cm_timestamp := 9 |}.

End RelayPaths.

(** * The session key of crypto-module.js *)

(** [class SessionKeyManager].  A [Buffer] is held by reference, and
    [fill] writes into the one buffer all holders of the reference see: the
    memory, [h : list (list byte)], is the list of the buffers allocated so
    far, and a reference, [r : nat], is an index in it. *)
Module SessionKeyManager.


(** The private fields [#key] (a [Buffer], or [null]) and [#createdAt]. *)
Record SessionKeyManager := mkSessionKeyManager {
  priv_key : option nat;
  priv_createdAt : N
}.

(** [buf.fill(0)] *)
Definition fill (value : byte) (r : nat) (h : list (list byte))
  : list (list byte) :=
  alter (λ b, replicate (length b) value) r h.

(** [new SessionKeyManager()], at the time [Date.now()] gives *)
Definition new (now : N) (h : list (list byte))
  : Crypto (SessionKeyManager * list (list byte)) :=
  cbind (randomBytes CryptoModule.KEY_LENGTH) (λ bytes,
    cret ({| priv_key := Some (length h); priv_createdAt := now |},
          h ++ [bytes])).

(** [get key()] *)
Definition key (this : SessionKeyManager) : Result nat :=
  match priv_key this with
  | None => Err (CError "Session key has been destroyed.")
  | Some r => Ok r
  end.

(** [get createdAt()] *)
Definition createdAt (this : SessionKeyManager) : N := priv_createdAt this.

(** [destroy()] *)
Definition destroy (this : SessionKeyManager) (h : list (list byte))
  : SessionKeyManager * list (list byte) :=
  match priv_key this with
  | Some r =>
      ({| priv_key := None; priv_createdAt := priv_createdAt this |},
       fill x00 r h)
  | None => (this, h)
  end.

(** What a holder of the reference reads. *)
Definition read (h : list (list byte)) (r : nat) : list byte :=
  default [] (h !! r).

End SessionKeyManager.

(** * Sending, in the client *)

(** What a client writes on the socket, as the server reads it:
    [JSON.stringify] leaves out a field that is [undefined] and writes
    [null] for one that is [null], and the server finds neither truthy. *)
Module Wire.


(** [{ type: 'send_message', to, content }], with [mediaType] in the client
    that sends media. *)
Definition of_send (to : option string) (content : string)
    (mediaType : option string) : Relay.RawFrame :=
  Relay.Json {| Relay.msg_type := Some "send_message";
                Relay.msg_userId := None;
                Relay.msg_to := to; Relay.msg_content := Some content;
                Relay.msg_mediaType := mediaType;
                Relay.msg_messageId := None |}.

End Wire.

(** [handleSend] of ghost-chat.js. *)
Module GhostChatSend.

Section WithPlatform.
Context {P : Platform}.

Inductive Effect :=
  | ws_send (to : option string) (content : string)
  | addMessage (text : string) (type : GhostChat.Label)
               (chatMsg : option Relay.ChatMessage)
  | addSystemMessage (text : string)
  | clear_input.

Definition set_recipientId (to : option string) (s : GhostChat.State)
  : GhostChat.State :=
  GhostChat.mkState (GhostChat.ws s) (GhostChat.sessionPassword s)
    (GhostChat.userId s) to (GhostChat.isConnected s)
    (GhostChat.reconnectAttempts s) (GhostChat.reconnectTimer s)
    (GhostChat.entropy s).

Definition set_entropy (e : Entropy) (s : GhostChat.State)
  : GhostChat.State :=
  GhostChat.mkState (GhostChat.ws s) (GhostChat.sessionPassword s)
    (GhostChat.userId s) (GhostChat.recipientId s) (GhostChat.isConnected s)
    (GhostChat.reconnectAttempts s) (GhostChat.reconnectTimer s) e.

(** [(d.recipientInput && d.recipientInput.value.trim()) || recipientId ||
    null], on the trimmed value of the input (empty when there is no
    input). *)
Definition recipient (recipientInput : string) (s : GhostChat.State)
  : option string :=
  match Relay.truthy (Some recipientInput) with
  | Some to => Some to
  | None => Relay.truthy (GhostChat.recipientId s)
  end.

(** [handleSend()], on the trimmed values of the two inputs. *)
Definition handleSend (text recipientInput : string) (s : GhostChat.State)
  : GhostChat.State * list Effect :=
  match Relay.truthy (Some text),
        Relay.truthy (GhostChat.sessionPassword s),
        Relay.truthy (GhostChat.userId s) with
  | Some _, Some password, Some _ =>
      match recipient recipientInput s with
      | None => (s, [addSystemMessage "⚠ Indica un destinatario"])
      | Some to =>
          let s1 := set_recipientId (Some to) s in
          let r := CryptoBrowser.encryptWithPassword text password
                     (GhostChat.entropy s1) in
          let s2 := set_entropy (snd r) s1 in
          match fst r with
          | Ok encrypted =>
              if GhostChat.ws_is_open s2 then
                (s2, [clear_input;
                      ws_send (GhostChat.recipientId s2) encrypted;
                      addMessage text GhostChat.sent None])
              else
                (s2, [clear_input;
                      addSystemMessage "⚠ Sin conexión — mensaje no enviado"])
          | Err _ => (s2, [clear_input; addSystemMessage "⚠ Error de cifrado"])
          end
      end
  | _, _, _ => (s, [])
  end.

(** The frames given to [ws.send], as the server reads them. *)
Definition sent_frames (effects : list Effect) : list Relay.RawFrame :=
  omap (λ e, match e with
             | ws_send to content => Some (Wire.of_send to content None)
             | _ => None
             end) effects.

End WithPlatform.

End GhostChatSend.

(** The sending functions of the client with media messages. *)
Module GhostChatMediaSend.

Section WithPlatform.
Context {P : Platform}.

Definition MAX_MEDIA_BYTES : N := 5 * 1024 * 1024.

Inductive Effect :=
  | ws_send (to : option string) (content mediaType : string)
  | addMessage (content mediaType : string) (type : GhostChat.Label)
               (chatMsg : option Relay.ChatMessage)
  | addSystemMessage (text : string)
  | clear_input
  | clear_file_input.

(** A [File]: its size, and what [FileReader.readAsDataURL] gives of it,
    [None] when the reader fails. *)
Record File := mkFile {
  size : N;
  dataURL : option string
}.

(** [getRecipient()] *)
Definition getRecipient (recipientInput : string) (s : GhostChat.State)
  : option string * GhostChat.State * list Effect :=
  match GhostChatSend.recipient recipientInput s with
  | None => (None, s, [addSystemMessage "⚠ Indica un destinatario"])
  | Some to => (Some to, GhostChatSend.set_recipientId (Some to) s, [])
  end.

(** [sendToServer(encryptedContent, mediaType)] *)
Definition sendToServer (encryptedContent mediaType : string)
    (s : GhostChat.State) : list Effect :=
  if GhostChat.ws_is_open s then
    [ws_send (GhostChat.recipientId s) encryptedContent mediaType]
  else [addSystemMessage "⚠ Sin conexion"].

(** [CryptoBrowser.encryptWithPassword(data, sessionPassword)], then
    [sendToServer] and [addMessage]: the body of the [try] of the three
    senders. *)
Definition encrypt_and_send (data mediaType failure : string)
    (s : GhostChat.State) : GhostChat.State * list Effect :=
  let r := CryptoBrowser.encryptWithPassword data
             (default "null" (GhostChat.sessionPassword s))
             (GhostChat.entropy s) in
  let s1 := GhostChatSend.set_entropy (snd r) s in
  match fst r with
  | Ok encrypted =>
      (s1, sendToServer encrypted mediaType s1 ++
           [addMessage data mediaType GhostChat.sent None])
  | Err _ => (s1, [addSystemMessage failure])
  end.

(** [handleSend()], on the trimmed values of the two inputs. *)
Definition handleSend (text recipientInput : string) (s : GhostChat.State)
  : GhostChat.State * list Effect :=
  match Relay.truthy (Some text),
        Relay.truthy (GhostChat.sessionPassword s),
        Relay.truthy (GhostChat.userId s) with
  | Some _, Some _, Some _ =>
      match getRecipient recipientInput s with
      | (None, s1, shown) => (s1, shown)
      | (Some _, s1, shown) =>
          let r := encrypt_and_send text "text" "⚠ Error de cifrado" s1 in
          (fst r, shown ++ [clear_input] ++ snd r)
      end
  | _, _, _ => (s, [])
  end.

(** [handlePhotoSelected(e)], on [e.target.files[0]]. *)
Definition handlePhotoSelected (file : option File) (recipientInput : string)
    (s : GhostChat.State) : GhostChat.State * list Effect :=
  match file with
  | None => (s, [])
  | Some file =>
      if (MAX_MEDIA_BYTES <? size file)%N then
        (s, [clear_file_input;
             addSystemMessage "⚠ Archivo muy grande (max 5MB)"])
      else
        match getRecipient recipientInput s with
        | (None, s1, shown) => (s1, clear_file_input :: shown)
        | (Some _, s1, shown) =>
            match dataURL file with
            | None =>
                (s1, clear_file_input :: shown ++
                     [addSystemMessage "⚠ Error cifrando imagen"])
            | Some base64 =>
                let r := encrypt_and_send base64 "image"
                           "⚠ Error cifrando imagen" s1 in
                (fst r, clear_file_input :: shown ++ snd r)
            end
        end
  end.

(** The frames given to [ws.send], as the server reads them. *)
Definition sent_frames (effects : list Effect) : list Relay.RawFrame :=
  omap (λ e, match e with
             | ws_send to content mediaType =>
                 Some (Wire.of_send to content (Some mediaType))
             | _ => None
             end) effects.

End WithPlatform.

End GhostChatMediaSend.

(** The messages a frame of the server carries to the client. *)
Definition carried (m : Relay.ChatMessage) (frame : option Relay.ServerFrame)
  : Prop :=
  match frame with
  | Some (Relay.new_message message) => m = message
  | Some (Relay.pending_messages messages _) => m ∈ messages
  | _ => False
  end.


(** * app.js: the two modes and what switches between them *)

Module App.

Inductive Mode := wapnation | ghost.

#[global] Instance Mode_eq_dec : EqDecision Mode.
Proof. solve_decision. Defined.

Definition LOGO_CLICK_THRESHOLD : nat := 3.
Definition LOGO_CLICK_WINDOW_MS : Z := 1500.
Definition SECRET_CODE : string := "1315".

(** The variables of the module; [logoClickTimer] tells whether the timer
    of the logo is pending. *)
Record State := mkState {
  currentMode : Mode;
  logoClickCount : nat;
  logoClickTimer : bool
}.

(** [let currentMode = 'wapnation'; let logoClickCount = 0;
    let logoClickTimer = null] *)
Definition initial : State :=
  {| currentMode := wapnation; logoClickCount := 0; logoClickTimer := false |}.

Inductive Effect :=
  | hide_wapnation
  | show_wapnation
  | GhostChat_activate
  | GhostChat_deactivate
  | clear_search
  | preventDefault
  | setTimeout (delay : Z)
  | clearTimeout.

(** [switchToGhost()] *)
Definition switchToGhost (s : State) : State * list Effect :=
  match currentMode s with
  | ghost => (s, [])
  | wapnation =>
      ({| currentMode := ghost; logoClickCount := logoClickCount s;
          logoClickTimer := logoClickTimer s |},
       [hide_wapnation; GhostChat_activate])
  end.

(** [switchToWapnation()] *)
Definition switchToWapnation (s : State) : State * list Effect :=
  match currentMode s with
  | wapnation => (s, [])
  | ghost =>
      ({| currentMode := wapnation; logoClickCount := logoClickCount s;
          logoClickTimer := logoClickTimer s |},
       [GhostChat_deactivate; show_wapnation; clear_search])
  end.

(** The [click] listener of the logo. *)
Definition logo_click (s : State) : State * list Effect :=
  let count := S (logoClickCount s) in
  if (LOGO_CLICK_THRESHOLD <=? count)%nat then
    let r := switchToGhost {| currentMode := currentMode s;
                              logoClickCount := 0;
                              logoClickTimer := false |} in
    (fst r, clearTimeout :: snd r)
  else
    ({| currentMode := currentMode s; logoClickCount := count;
        logoClickTimer := true |},
     [clearTimeout; setTimeout LOGO_CLICK_WINDOW_MS]).

(** The callback of the timer of the logo. *)
Definition logo_timer_fired (s : State) : State * list Effect :=
  ({| currentMode := currentMode s; logoClickCount := 0;
      logoClickTimer := false |}, []).

(** The [input] listener of the search bar, on [search.value.trim()]. *)
Definition search_input (trimmed : string) (s : State)
  : State * list Effect :=
  if decide (trimmed = SECRET_CODE) then
    let r := switchToGhost s in (fst r, clear_search :: snd r)
  else (s, []).

(** The [keydown] listener, on [e.key]. *)
Definition keydown (key : string) (s : State) : State * list Effect :=
  if decide (key = "Escape") then
    let r := switchToWapnation s in (fst r, preventDefault :: snd r)
  else (s, []).

Inductive Event :=
  | LogoClick
  | LogoTimerFired
  | SearchInput (trimmed : string)
  | KeyDown (key : string)
  | ContextMenu.

Definition handle (e : Event) (s : State) : State * list Effect :=
  match e with
  | LogoClick => logo_click s
  | LogoTimerFired => logo_timer_fired s
  | SearchInput trimmed => search_input trimmed s
  | KeyDown key => keydown key s
  | ContextMenu => (s, [preventDefault])
  end.

Fixpoint run (events : list Event) (s : State) : State * list Effect :=
  match events with
  | [] => (s, [])
  | e :: rest =>
      let r1 := handle e s in
      let r2 := run rest (fst r1) in
      (fst r2, snd r1 ++ snd r2)
  end.

(** The mode of the chat as its own calls leave it: [None] when
    [GhostChat.activate] is called while the chat is shown, or
    [GhostChat.deactivate] while it is hidden. *)
Fixpoint shown_after (m : Mode) (effects : list Effect) : option Mode :=
  match effects with
  | [] => Some m
  | GhostChat_activate :: rest =>
      if decide (m = wapnation) then shown_after ghost rest else None
  | GhostChat_deactivate :: rest =>
      if decide (m = ghost) then shown_after wapnation rest else None
  | _ :: rest => shown_after m rest
  end.

End App.
(** * Facts about the password envelope *)

Section Base64Facts.
Import Base64.

Lemma below_64 (Q : N → Prop) :
  Forall Q (map N.of_nat (seq 0 64)) → ∀ n, (n < 64)%N → Q n.
Proof.
  intros HQ n Hn. rewrite Forall_forall in HQ. apply HQ.
  apply list_elem_of_fmap. exists (N.to_nat n). split; [lia|].
  apply elem_of_seq. lia.
Qed.

Lemma char_sextet_char n : (n < 64)%N → char_sextet (sextet_char n) = Some n.
Proof.
  revert n. apply below_64. apply (bool_decide_unpack _). by vm_compute.
Qed.

Lemma sextet_char_not_pad n : (n < 64)%N → sextet_char n ≠ pad.
Proof.
  revert n. apply below_64. apply (bool_decide_unpack _). by vm_compute.
Qed.

Lemma char_sextet_pad : char_sextet pad = None.
Proof. reflexivity. Qed.

Lemma sextet_lt i n : (sextet i n < 64)%N.
Proof. unfold sextet. apply N.mod_lt. discriminate. Qed.

Lemma group_lt a b c : (group a b c < 16777216)%N.
Proof.
  unfold group.
  pose proof (N_ascii_bounded a). pose proof (N_ascii_bounded b).
  pose proof (N_ascii_bounded c). lia.
Qed.

Lemma ungroup_sextets n :
  (n < 16777216)%N →
  ungroup (sextet 0 n) (sextet 1 n) (sextet 2 n) (sextet 3 n) = n.
Proof.
  intros Hn. unfold ungroup, sextet.
  change (64 ^ (3 - 0))%N with 262144%N. change (64 ^ (3 - 1))%N with 4096%N.
  change (64 ^ (3 - 2))%N with 64%N. change (64 ^ (3 - 3))%N with 1%N.
  zify. Z.to_euclidean_division_equations. lia.
Qed.

Lemma octets_group a b c :
  octet 0 (group a b c) = a ∧ octet 1 (group a b c) = b ∧
  octet 2 (group a b c) = c.
Proof.
  unfold octet, group.
  change (256 ^ (2 - 0))%N with 65536%N. change (256 ^ (2 - 1))%N with 256%N.
  change (256 ^ (2 - 2))%N with 1%N.
  pose proof (N_ascii_bounded a) as Ha. pose proof (N_ascii_bounded b) as Hb.
  pose proof (N_ascii_bounded c) as Hc.
  rewrite <- (ascii_N_embedding a) at 2. rewrite <- (ascii_N_embedding b) at 3.
  rewrite <- (ascii_N_embedding c) at 4.
  repeat split; f_equal; zify; Z.to_euclidean_division_equations; lia.
Qed.

Lemma sextet_low_zero a b :
  sextet 3 (group a b zero) = 0%N ∧ sextet 2 (group a zero zero) = 0%N ∧
  sextet 3 (group a zero zero) = 0%N.
Proof.
  unfold sextet, group.
  change (64 ^ (3 - 2))%N with 64%N. change (64 ^ (3 - 3))%N with 1%N.
  change (N_of_ascii zero) with 0%N.
  repeat split; zify; Z.to_euclidean_division_equations; lia.
Qed.

#[local] Opaque ungroup sextet octet group sextet_char.

Lemma atob_btoa_bounded (n : nat) :
  ∀ bin, (String.length bin ≤ n)%nat → atob (btoa bin) = Some bin.
Proof.
  induction n as [n IH] using lt_wf_ind. intros bin Hlen.
  destruct bin as [|a [|b [|c rest]]]; [reflexivity| | |].
  - cbn [btoa atob].
    rewrite !char_sextet_char by apply sextet_lt.
    rewrite char_sextet_pad. cbn [Ascii.eqb Bool.eqb pad andb].
    destruct (sextet_low_zero a zero) as (_ & H2 & H3).
    pose proof (ungroup_sextets _ (group_lt a zero zero)) as Hg.
    rewrite H2, H3 in Hg. rewrite Hg.
    destruct (octets_group a zero zero) as (-> & _). reflexivity.
  - cbn [btoa atob].
    rewrite !char_sextet_char by apply sextet_lt.
    rewrite char_sextet_pad. cbn [Ascii.eqb Bool.eqb pad andb].
    destruct (sextet_low_zero a b) as (H3 & _).
    pose proof (ungroup_sextets _ (group_lt a b zero)) as Hg.
    rewrite H3 in Hg. rewrite Hg.
    destruct (octets_group a b zero) as (-> & -> & _). reflexivity.
  - cbn [btoa atob].
    rewrite !char_sextet_char by apply sextet_lt.
    rewrite ungroup_sextets by apply group_lt.
    cbn in Hlen.
    rewrite (IH (String.length rest)) by lia. cbn [option_map].
    destruct (octets_group a b c) as (-> & -> & ->). reflexivity.
Qed.

Lemma atob_btoa bin : atob (btoa bin) = Some bin.
Proof. by apply (atob_btoa_bounded (String.length bin)). Qed.

End Base64Facts.

Section SampleFacts.
Import SamplePlatform.

Lemma lxor_byte_bound x y : (x < 256 → y < 256 → N.lxor x y < 256)%N.
Proof.
  intros Hx Hy.
  destruct (N.eq_dec (N.lxor x y) 0%N) as [->|Hne]; [lia|].
  apply (N.log2_lt_pow2 _ 8); [lia|].
  pose proof (N.log2_lxor x y) as Hl.
  assert (N.log2 x < 8)%N.
  { destruct (N.eq_dec x 0%N) as [->|?]; [cbn; lia|]. apply N.log2_lt_pow2; lia. }
  assert (N.log2 y < 8)%N.
  { destruct (N.eq_dec y 0%N) as [->|?]; [cbn; lia|]. apply N.log2_lt_pow2; lia. }
  lia.
Qed.

Lemma to_N_xor_byte a b :
  Byte.to_N (xor_byte a b) = N.lxor (Byte.to_N a) (Byte.to_N b).
Proof.
  unfold xor_byte.
  destruct (Byte.of_N _) as [c|] eqn:Hc; cbn.
  - by apply Byte.to_of_N.
  - apply Byte.of_N_None_iff in Hc.
    pose proof (Byte.to_N_bounded a). pose proof (Byte.to_N_bounded b).
    pose proof (lxor_byte_bound (Byte.to_N a) (Byte.to_N b)). lia.
Qed.

Lemma xor_byte_involutive k a : xor_byte k (xor_byte k a) = a.
Proof.
  assert (Some (xor_byte k (xor_byte k a)) = Some a) as [= ->]; [|done].
  rewrite <- !Byte.of_to_N. f_equal.
  by rewrite !to_N_xor_byte, <- N.lxor_assoc, N.lxor_nilpotent, N.lxor_0_l.
Qed.

End SampleFacts.

Section CryptoFacts.
Context {P : Platform} {spec : PlatformSpec P}.

Ltac node_lengths :=
  unfold CryptoModule.IV_LENGTH, CryptoModule.AUTH_TAG_LENGTH,
    CryptoModule.SALT_LENGTH, CryptoModule.KEY_LENGTH in *.

Ltac browser_lengths :=
  unfold CryptoBrowser.IV_LENGTH, CryptoBrowser.AUTH_TAG_LENGTH,
    CryptoBrowser.SALT_LENGTH, CryptoBrowser.KEY_LENGTH in *.

Lemma length_draw n e : length (draw n e) = n.
Proof. unfold draw. by rewrite length_map, length_seq. Qed.

(** What Node's [encryptWithPassword] returns. *)
Lemma node_envelope plaintext password e :
  password ≠ "" →
  let salt := draw 32 e in
  let iv := draw 12 (advance 32 e) in
  let key := pbkdf2 password salt 600000 32 "sha512" in
  let sealed := aes_256_gcm_encrypt key iv [] (utf8_encode plaintext) in
  CryptoModule.encryptWithPassword plaintext password e =
    (Ok (salt ++ iv ++ snd sealed ++ fst sealed), advance 12 (advance 32 e)).
Proof.
  intros Hpw. cbn zeta.
  unfold CryptoModule.encryptWithPassword, CryptoModule.deriveKey.
  destruct password as [|c password]; [done|].
  unfold cbind, randomBytes, cret. cbn [CryptoModule.key CryptoModule.salt].
  unfold CryptoModule.encrypt.
  rewrite pbkdf2_length. reflexivity.
Qed.


(** What Node's [decryptWithPassword] does with a payload of that layout. *)
Lemma node_open salt iv tag ciphertext password e :
  length salt = 32 → length iv = 12 → length tag = 16 →
  ciphertext ≠ [] → password ≠ "" →
  CryptoModule.decryptWithPassword (salt ++ iv ++ tag ++ ciphertext)
    password e =
    (match aes_256_gcm_decrypt (pbkdf2 password salt 600000 32 "sha512")
             iv [] ciphertext tag with
     | Some plain => Ok (utf8_decode plain)
     | None => Err AuthenticationFailed
     end, e).
Proof.
  intros Hsalt Hiv Htag Hct Hpw.
  unfold CryptoModule.decryptWithPassword.
  destruct ciphertext as [|b ciphertext]; [done|]. node_lengths.
  rewrite !length_app, Hsalt, Hiv, Htag. cbn [length].
  replace (_ <? _)%nat with false by (symmetry; apply Nat.ltb_ge; node_lengths; lia).
  rewrite (take_app_length' _ _ 32), (drop_app_length' _ _ 32) by done.
  unfold CryptoModule.deriveKey.
  destruct password as [|c password]; [done|].
  unfold cbind, cret. cbn [CryptoModule.key].
  unfold CryptoModule.decrypt. rewrite pbkdf2_length.
  rewrite !length_app, Hiv, Htag. cbn [length negb Nat.eqb CryptoModule.KEY_LENGTH].
  replace (_ <? _)%nat with false
    by (symmetry; apply Nat.ltb_ge; node_lengths; lia).
  rewrite (take_app_length' _ _ 12), (drop_app_length' _ _ 12) by done.
  rewrite (take_app_length' _ _ 16) by done.
  replace (drop _ _) with (b :: ciphertext).
  2:{ rewrite app_assoc. rewrite drop_app_length'; [done|].
      by rewrite length_app, Hiv, Htag. }
  cbn [CryptoModule.aad_bytes].
  destruct (aes_256_gcm_decrypt _ _ _ _ _); reflexivity.
Qed.


Lemma fromBase64_toBase64 bytes e :
  CryptoBrowser.fromBase64 (CryptoBrowser.toBase64 bytes) e = (Ok bytes, e).
Proof.
  unfold CryptoBrowser.fromBase64, CryptoBrowser.toBase64.
  rewrite atob_btoa. unfold cret.
  by rewrite String.list_byte_of_string_of_list_byte.
Qed.

(** What the browser's [encryptWithPassword] returns. *)
Lemma browser_envelope plaintext password e :
  let salt := draw 32 e in
  let iv := draw 12 (advance 32 e) in
  let key := pbkdf2 password salt 100000 32 "SHA-512" in
  let sealed := aes_256_gcm_encrypt key iv [] (utf8_encode plaintext) in
  CryptoBrowser.encryptWithPassword plaintext password e =
    (Ok (CryptoBrowser.toBase64 (salt ++ iv ++ fst sealed ++ snd sealed)),
     advance 12 (advance 32 e)).
Proof.
  cbn zeta. unfold CryptoBrowser.encryptWithPassword, CryptoBrowser.deriveKey.
  unfold cbind, CryptoBrowser.getRandomBytes, randomBytes, cret.
  cbn [CryptoBrowser.key CryptoBrowser.salt].
  unfold CryptoBrowser.concatBuffers, CryptoBrowser.subtle_encrypt.
  cbn [concat]. by rewrite app_nil_r.
Qed.

(** What the browser's [decryptWithPassword] does with such a blob. *)
Lemma browser_open salt iv ciphertext tag password e :
  length salt = 32 → length iv = 12 → length tag = 16 →
  ciphertext ≠ [] →
  CryptoBrowser.decryptWithPassword
    (CryptoBrowser.toBase64 (salt ++ iv ++ ciphertext ++ tag)) password e =
    (match aes_256_gcm_decrypt (pbkdf2 password salt 100000 32 "SHA-512")
             iv [] ciphertext tag with
     | Some plain => Ok (utf8_decode plain)
     | None => Err AuthenticationFailed
     end, e).
Proof.
  intros Hsalt Hiv Htag Hct.
  unfold CryptoBrowser.decryptWithPassword, cbind.
  rewrite fromBase64_toBase64.
  destruct ciphertext as [|b ciphertext]; [done|]. browser_lengths.
  rewrite !length_app, Hsalt, Hiv, Htag. cbn [length].
  replace (_ <? _)%nat with false by (symmetry; apply Nat.ltb_ge; lia).
  rewrite (take_app_length' _ _ 32), (drop_app_length' _ _ 32) by done.
  rewrite (take_app_length' _ _ 12) by done.
  replace (drop _ _) with ((b :: ciphertext) ++ tag).
  2:{ rewrite app_assoc. rewrite drop_app_length'; [done|].
      by rewrite length_app, Hsalt, Hiv. }
  unfold CryptoBrowser.deriveKey, cbind, cret. cbn [CryptoBrowser.key].
  unfold CryptoBrowser.subtle_decrypt. browser_lengths.
  rewrite length_app, Htag.
  replace (_ <? _)%nat with false by (symmetry; apply Nat.ltb_ge; lia).
  rewrite (take_app_length' _ _ _), (drop_app_length' _ _ _) by lia.
  destruct (aes_256_gcm_decrypt _ _ _ _ _); reflexivity.
Qed.

(** A payload without ciphertext is shorter than both modules accept. *)
Lemma node_rejects_short salt iv tag password e :
  length salt = 32 → length iv = 12 → length tag = 16 →
  CryptoModule.decryptWithPassword (salt ++ iv ++ tag ++ []) password e =
    (Err (CTypeError "Payload is too short or not a Buffer."), e).
Proof.
  intros Hsalt Hiv Htag. unfold CryptoModule.decryptWithPassword.
  by rewrite !length_app, Hsalt, Hiv, Htag.
Qed.

Lemma browser_rejects_short salt iv tag password e :
  length salt = 32 → length iv = 12 → length tag = 16 →
  CryptoBrowser.decryptWithPassword
    (CryptoBrowser.toBase64 (salt ++ iv ++ [] ++ tag)) password e =
    (Err (CError "Payload too short."), e).
Proof.
  intros Hsalt Hiv Htag. unfold CryptoBrowser.decryptWithPassword, cbind.
  rewrite fromBase64_toBase64.
  by rewrite !length_app, Hsalt, Hiv, Htag.
Qed.

(** With an empty plaintext the payload has no ciphertext byte, and both
    modules refuse to decrypt what they encrypted. *)
Lemma empty_plaintext_rejected password e e' :
  password ≠ "" →
  (∃ payload,
     fst (CryptoModule.encryptWithPassword "" password e) = Ok payload ∧
     fst (CryptoModule.decryptWithPassword payload password e') =
       Err (CTypeError "Payload is too short or not a Buffer.")) ∧
  (∃ payload,
     fst (CryptoBrowser.encryptWithPassword "" password e) = Ok payload ∧
     fst (CryptoBrowser.decryptWithPassword payload password e') =
       Err (CError "Payload too short.")).
Proof.
  intros Hpw. split.
  - rewrite node_envelope by done. cbn zeta. eexists. split; [reflexivity|].
    pose proof (gcm_ciphertext_length
      (pbkdf2 password (draw 32 e) 600000 32 "sha512")
      (draw 12 (advance 32 e)) [] (utf8_encode "")) as Hlen.
    rewrite utf8_encode_empty in Hlen |- *.
    apply nil_length_inv in Hlen. rewrite Hlen.
    rewrite node_rejects_short; [done|..];
      auto using length_draw, gcm_tag_length.
  - rewrite browser_envelope. cbn zeta. eexists. split; [reflexivity|].
    pose proof (gcm_ciphertext_length
      (pbkdf2 password (draw 32 e) 100000 32 "SHA-512")
      (draw 12 (advance 32 e)) [] (utf8_encode "")) as Hlen.
    rewrite utf8_encode_empty in Hlen |- *.
    apply nil_length_inv in Hlen. rewrite Hlen.
    rewrite browser_rejects_short; [done|..];
      auto using length_draw, gcm_tag_length.
Qed.


(** Decrypting what was encrypted gives the plaintext as UTF-8 decodes its
    encoding. *)
Lemma decrypt_of_encrypt (plaintext password : string) (e : Entropy) :
  plaintext ≠ "" → password ≠ "" →
  (∃ payload,
     fst (CryptoModule.encryptWithPassword plaintext password e) = Ok payload ∧
     ∀ e', CryptoModule.decryptWithPassword payload password e' =
             (Ok (utf8_decode (utf8_encode plaintext)), e')) ∧
  (∃ payload,
     fst (CryptoBrowser.encryptWithPassword plaintext password e) = Ok payload ∧
     ∀ e', CryptoBrowser.decryptWithPassword payload password e' =
             (Ok (utf8_decode (utf8_encode plaintext)), e')).
Proof.
  intros Hplain Hpw.
  assert (∀ key iv, fst (aes_256_gcm_encrypt key iv [] (utf8_encode plaintext))
                    ≠ []) as Hct.
  { intros key iv Hnil.
    pose proof (gcm_ciphertext_length key iv [] (utf8_encode plaintext)) as Hl.
    rewrite Hnil in Hl. symmetry in Hl. apply nil_length_inv in Hl.
    by apply utf8_encode_nil in Hl. }
  split.
  - rewrite node_envelope by done. cbn zeta. eexists. split; [reflexivity|].
    intros e'.
    rewrite node_open; auto using length_draw, gcm_tag_length.
    by rewrite gcm_decrypt_encrypt.
  - rewrite browser_envelope. cbn zeta. eexists. split; [reflexivity|].
    intros e'.
    rewrite browser_open; auto using length_draw, gcm_tag_length.
    by rewrite gcm_decrypt_encrypt.
Qed.

(** C1 (amended).  For every non-empty plaintext that UTF-8 decoding gives
    back from its encoding, and every non-empty password, in the Node module
    and in the browser module alike, encryption returns a payload, and
    decrypting that payload with the same password returns the plaintext. *)
Theorem password_round_trip (plaintext password : string) (e : Entropy) :
  plaintext ≠ "" → password ≠ "" →
  utf8_decode (utf8_encode plaintext) = plaintext →
  (∃ payload,
     fst (CryptoModule.encryptWithPassword plaintext password e) = Ok payload ∧
     ∀ e', CryptoModule.decryptWithPassword payload password e' =
             (Ok plaintext, e')) ∧
  (∃ payload,
     fst (CryptoBrowser.encryptWithPassword plaintext password e) = Ok payload ∧
     ∀ e', CryptoBrowser.decryptWithPassword payload password e' =
             (Ok plaintext, e')).
Proof.
  intros Hplain Hpw Hutf8.
  pose proof (decrypt_of_encrypt plaintext password e Hplain Hpw) as Hdec.
  by rewrite Hutf8 in Hdec.
Qed.

Lemma is_base64_sextet_char n :
  (n < 64)%N → Base64.is_base64_char (Base64.sextet_char n) = true.
Proof.
  intros Hn. unfold Base64.is_base64_char. by rewrite char_sextet_char.
Qed.

Lemma btoa_text_safe_bounded (n : nat) :
  ∀ bin, (String.length bin ≤ n)%nat →
         Base64.text_safe (Base64.btoa bin) = true.
Proof.
  induction n as [n IH] using lt_wf_ind. intros bin Hlen.
  destruct bin as [|a [|b [|c rest]]]; [reflexivity|..];
    cbn [Base64.btoa Base64.text_safe];
    rewrite !is_base64_sextet_char by apply sextet_lt;
    [reflexivity..|].
  cbn in Hlen. by rewrite (IH (String.length rest)) by lia.
Qed.

Lemma toBase64_text_safe bytes :
  Base64.text_safe (CryptoBrowser.toBase64 bytes) = true.
Proof. by apply (btoa_text_safe_bounded _ _ (le_n _)). Qed.

(** C5 (amended).  For every plaintext and every non-empty password, with
    the salt the next 32 random bytes and the nonce the 12 after them: the
    browser module returns one text-safe blob, the base64 text of
    salt ‖ nonce ‖ ciphertext ‖ tag; the Node module returns the bytes
    salt ‖ nonce ‖ tag ‖ ciphertext themselves, the tag of 16 bytes before
    the ciphertext. *)
Theorem envelope_layout (plaintext password : string) (e : Entropy) :
  password ≠ "" →
  let salt := draw 32 e in
  let iv := draw 12 (advance 32 e) in
  let node := aes_256_gcm_encrypt (pbkdf2 password salt 600000 32 "sha512")
                iv [] (utf8_encode plaintext) in
  let browser := aes_256_gcm_encrypt (pbkdf2 password salt 100000 32 "SHA-512")
                   iv [] (utf8_encode plaintext) in
  length salt = 32 ∧ length iv = 12 ∧
  length (snd node) = 16 ∧ length (snd browser) = 16 ∧
  fst (CryptoModule.encryptWithPassword plaintext password e) =
    Ok (salt ++ iv ++ snd node ++ fst node) ∧
  ∃ blob,
    fst (CryptoBrowser.encryptWithPassword plaintext password e) = Ok blob ∧
    Base64.text_safe blob = true ∧
    blob = CryptoBrowser.toBase64 (salt ++ iv ++ fst browser ++ snd browser) ∧
    ∀ e', CryptoBrowser.fromBase64 blob e' =
            (Ok (salt ++ iv ++ fst browser ++ snd browser), e').
Proof.
  intros Hpw. cbn zeta.
  rewrite node_envelope by done. rewrite browser_envelope. cbn zeta.
  repeat split; auto using length_draw, gcm_tag_length.
  eexists. repeat split; auto using toBase64_text_safe, fromBase64_toBase64.
Qed.

End CryptoFacts.


(** The sample platform has the contract. *)
Lemma sample_spec : PlatformSpec SamplePlatform.sample.
Proof.
  split; cbn.
  - intros. unfold SamplePlatform.sample_pbkdf2.
    by rewrite length_map, length_seq.
  - intros. by rewrite length_map.
  - reflexivity.
  - intros. unfold SamplePlatform.sample_decrypt.
    rewrite decide_True by done. f_equal.
    rewrite <- list_fmap_compose. rewrite <- (list_fmap_id data) at 2.
    apply list_fmap_ext. intros _ b _. apply xor_byte_involutive.
  - reflexivity.
  - intros s Hs. by destruct s.
Qed.

(** C1, at an input: the hypotheses hold of ["hola"] and ["clave"], and
    both modules give the plaintext back. *)
Lemma password_round_trip_witness :
  "hola" ≠ "" ∧ "clave" ≠ "" ∧
  utf8_decode (Platform := SamplePlatform.sample)
    (utf8_encode (Platform := SamplePlatform.sample) "hola") = "hola" ∧
  (∃ payload,
     fst (CryptoModule.encryptWithPassword (P := SamplePlatform.sample)
            "hola" "clave" SamplePlatform.counting) = Ok payload ∧
     ∀ e', CryptoModule.decryptWithPassword payload "clave" e' =
             (Ok "hola", e')) ∧
  (∃ payload,
     fst (CryptoBrowser.encryptWithPassword (P := SamplePlatform.sample)
            "hola" "clave" SamplePlatform.counting) = Ok payload ∧
     ∀ e', CryptoBrowser.decryptWithPassword payload "clave" e' =
             (Ok "hola", e')).
Proof.
  split; [discriminate|]. split; [discriminate|]. split; [reflexivity|].
  apply (@password_round_trip SamplePlatform.sample sample_spec
           "hola" "clave" SamplePlatform.counting);
    [discriminate|discriminate|reflexivity].
Defined.

(** C1 as stated fails for the empty plaintext: both modules encrypt it,
    and both refuse the payload they produced, which has no ciphertext
    byte. *)
Lemma empty_plaintext_not_recovered :
  (∃ payload,
     fst (CryptoModule.encryptWithPassword (P := SamplePlatform.sample)
            "" "clave" SamplePlatform.counting) = Ok payload ∧
     length payload = 60 ∧
     fst (CryptoModule.decryptWithPassword payload "clave"
            SamplePlatform.counting) =
       Err (CTypeError "Payload is too short or not a Buffer.")) ∧
  (∃ payload,
     fst (CryptoBrowser.encryptWithPassword (P := SamplePlatform.sample)
            "" "clave" SamplePlatform.counting) = Ok payload ∧
     fst (CryptoBrowser.decryptWithPassword payload "clave"
            SamplePlatform.counting) =
       Err (CError "Payload too short.")).
Proof. split; eexists; repeat split; vm_compute; reflexivity. Qed.

(** C5, at an input. *)
Lemma envelope_layout_witness :
  "clave" ≠ "" ∧
  fst (CryptoModule.encryptWithPassword (P := SamplePlatform.sample)
         "hola" "clave" SamplePlatform.counting) =
    Ok (draw 32 SamplePlatform.counting ++
        draw 12 (advance 32 SamplePlatform.counting) ++
        replicate 16 "W"%byte ++ ["5"; "2"; "1"; "<"]%byte).
Proof.
  split; [discriminate|].
  destruct (@envelope_layout SamplePlatform.sample sample_spec
              "hola" "clave" SamplePlatform.counting)
    as (_ & _ & _ & _ & Hnode & _); [discriminate|].
  rewrite Hnode. vm_compute. reflexivity.
Defined.

(** C5 as stated fails for the Node module: its payload is not
    salt ‖ nonce ‖ ciphertext ‖ tag. *)
Lemma node_envelope_not_ciphertext_then_tag :
  let salt := draw 32 SamplePlatform.counting in
  let iv := draw 12 (advance 32 SamplePlatform.counting) in
  let sealed :=
    aes_256_gcm_encrypt (pbkdf2 "clave" salt 600000 32 "sha512") iv []
      (utf8_encode "hola") in
  fst (CryptoModule.encryptWithPassword (P := SamplePlatform.sample)
         "hola" "clave" SamplePlatform.counting) ≠
    Ok (salt ++ iv ++ fst sealed ++ snd sealed).
Proof. vm_compute. discriminate. Qed.

(** * Facts about the relay server *)

Section RelayFacts.
Import Relay.

Lemma chat_key_inj (u v : string) : "chat:" +:+ u = "chat:" +:+ v → u = v.
Proof. apply (inj (String.app "chat:")). Qed.

Lemma lrange_store_list_eq key l db :
  lrange_all (store_list key l db) key = l.
Proof.
  unfold lrange_all, store_list. destruct l.
  - by rewrite lookup_delete_eq.
  - by rewrite lookup_insert_eq.
Qed.

Lemma lrange_store_list_ne key key' l db :
  key ≠ key' → lrange_all (store_list key l db) key' = lrange_all db key'.
Proof.
  intros Hne. unfold lrange_all, store_list. destruct l.
  - by rewrite lookup_delete_ne.
  - by rewrite lookup_insert_ne.
Qed.

Lemma match_or_not messageId l :
  no_match messageId l ∨ ∃ i m, first_match messageId l i m.
Proof.
  induction l as [|raw l IH].
  - left. intros m Hm. by apply elem_of_nil in Hm.
  - destruct raw as [m|s].
    + destruct (decide (cm_id m = messageId)) as [Heq|Hne].
      * right. exists 0, m. split; [done|]. split; [done|]. intros; lia.
      * destruct IH as [Hno|(i & m' & Hi & Hid & Hfirst)].
        -- left. intros m' [[= ->]|Hm']%elem_of_cons; auto.
        -- right. exists (S i), m'. split; [done|]. split; [done|].
           intros [|j] m'' Hj Hl; cbn in Hl; [by simplify_eq|].
           apply (Hfirst j); [lia|done].
    + destruct IH as [Hno|(i & m' & Hi & Hid & Hfirst)].
      * left. intros m' [[=]|Hm']%elem_of_cons; auto.
      * right. exists (S i), m'. split; [done|]. split; [done|].
        intros [|j] m'' Hj Hl; cbn in Hl; [by simplify_eq|].
        apply (Hfirst j); [lia|done].
Qed.

(** [LREM key 1 raw] deletes the entry the loop stopped at. *)
Lemma remove_first_first_match messageId l i m :
  first_match messageId l i m → remove_first (Stringified m) l = delete i l.
Proof.
  revert i. induction l as [|raw l IH]; intros i (Hi & Hid & Hfirst).
  - done.
  - destruct i as [|i]; cbn in Hi |- *.
    + simplify_eq. by rewrite decide_True.
    + rewrite decide_False.
      * f_equal. apply IH. split; [done|]. split; [done|].
        intros j m' Hj Hl. apply (Hfirst (S j)); [lia|done].
      * intros ->. apply (Hfirst 0 m); [lia|done|done].
Qed.

Lemma deleteMessage_loop_no_match redisKey messageId l σ :
  no_match messageId l →
  deleteMessage_loop redisKey messageId l σ = (Normal None, σ, []).
Proof.
  intros Hno. induction l as [|raw l IH]; [done|].
  cbn [deleteMessage_loop]. destruct raw as [m|s]; cbn [JSON_parse].
  - rewrite bool_decide_eq_false_2.
    + apply IH. intros m' Hm'. apply Hno. by right.
    + apply Hno. by left.
  - apply IH. intros m' Hm'. apply Hno. by right.
Qed.

Lemma deleteMessage_loop_first_match redisKey messageId l i m σ :
  first_match messageId l i m →
  deleteMessage_loop redisKey messageId l σ =
    (Normal (Some m),
     {| clients := clients σ;
        redis := store_list redisKey
                   (remove_first (Stringified m)
                      (lrange_all (redis σ) redisKey)) (redis σ);
        connections := connections σ |}, []).
Proof.
  revert i. induction l as [|raw l IH]; intros i (Hi & Hid & Hfirst).
  - done.
  - cbn [deleteMessage_loop]. destruct i as [|i]; cbn in Hi.
    + simplify_eq. cbn [JSON_parse]. by rewrite bool_decide_eq_true_2.
    + assert (first_match messageId l i m) as Hrest.
      { split; [done|]. split; [done|]. intros j m' Hj Hl.
        apply (Hfirst (S j)); [lia|done]. }
      destruct raw as [m0|s]; cbn [JSON_parse]; [|by apply (IH i)].
      rewrite bool_decide_eq_false_2; [by apply (IH i)|].
      apply (Hfirst 0); [lia|done].
Qed.

Lemma live_spec σ u :
  (w ← clients σ !! u;
   if match connections σ !! w with
      | Some c => bool_decide (readyState_code (conn_readyState c) = 1)
      | None => false
      end then Some w else None) = live σ u.
Proof.
  unfold live. destruct (clients σ !! u) as [w|]; [|done]. cbn.
  destruct (connections σ !! w) as [c|]; [|done]. cbn.
  by destruct (conn_readyState c).
Qed.

(** [send_if_open] on the socket of an identity sends to its live socket. *)
Lemma send_if_open_live u f σ :
  send_if_open (clients σ !! u) f σ =
    (Normal (), σ, match live σ u with Some w => [(w, f)] | None => [] end).
Proof.
  rewrite <- live_spec. unfold send_if_open.
  destruct (clients σ !! u) as [w|]; [|done]. cbn.
  unfold bind, ws_is_open.
  by destruct (match connections σ !! w with Some _ => _ | None => _ end).
Qed.

Ltac switch_on Htype :=
  unfold on_message, type_is; rewrite Htype;
  repeat (rewrite bool_decide_eq_false_2 by discriminate);
  rewrite bool_decide_eq_true_2 by reflexivity.

Lemma seen_not_found env ws msg σ c userId messageId :
  connections σ !! ws = Some c → conn_userId c = Some userId →
  msg_type msg = Some "seen" → truthy (msg_messageId msg) = Some messageId →
  no_match messageId (queue σ userId) →
  on_message env ws (Json msg) σ =
    (Normal (), σ,
     [(ws, ack_seen messageId false
             (Some "Mensaje no encontrado en la cola"))]).
Proof.
  intros Hws Huser Htype Hid Hno. switch_on Htype.
  unfold case_seen, bind at 1, get_userId. rewrite Hws. cbn [mbind option_bind].
  rewrite Huser, Hid. unfold deleteMessageFromRedis, bind, redis_lrange.
  fold (queue σ userId). by rewrite deleteMessage_loop_no_match.
Qed.

Lemma seen_found env ws msg σ c userId messageId i m :
  connections σ !! ws = Some c → conn_userId c = Some userId →
  msg_type msg = Some "seen" → truthy (msg_messageId msg) = Some messageId →
  first_match messageId (queue σ userId) i m →
  on_message env ws (Json msg) σ =
    (Normal (),
     {| clients := clients σ;
        redis := store_list ("chat:" +:+ userId) (delete i (queue σ userId))
                   (redis σ);
        connections := connections σ |},
     match live σ (cm_from m) with
     | Some w => [(w, message_seen messageId userId (Date_now env))]
     | None => []
     end ++ [(ws, ack_seen messageId true None)]).
Proof.
  intros Hws Huser Htype Hid Hfound. switch_on Htype.
  unfold case_seen, bind at 1, get_userId. rewrite Hws. cbn [mbind option_bind].
  rewrite Huser, Hid. unfold deleteMessageFromRedis.
  unfold bind at 1 2, redis_lrange. fold (queue σ userId).
  rewrite (deleteMessage_loop_first_match _ _ _ i m) by done.
  fold (queue σ userId).
  rewrite (remove_first_first_match messageId _ i m) by done.
  unfold bind at 1, clients_get. cbn [clients].
  unfold bind.
  match goal with
  | |- context [send_if_open (clients σ !! ?u) ?f ?s] =>
      change (clients σ !! u) with (clients s !! u);
      rewrite (send_if_open_live u f s)
  end.
  unfold ws_send. reflexivity.
Qed.

(** C2.  A [seen] frame with a message id, from a registered caller, leaves
    the registry, the connections and every other queue as they are.  When
    no message of the caller's queue has the id, nothing changes at all and
    the caller gets [ack_seen] with [deleted: false] and a reason, not an
    error frame; this is what a repeated [seen] meets once the only message
    with the id is gone.  When a message has it, the first such is removed
    and no other, the sender is sent [message_seen] on its live socket if it
    has one, and the caller gets [ack_seen] with [deleted: true]. *)
Theorem seen_removes_one (env : Env) (ws : ConnId) (msg : ClientMsg)
    (σ : Server) (c : Connection) (userId messageId : string) :
  connections σ !! ws = Some c → conn_userId c = Some userId →
  msg_type msg = Some "seen" → truthy (msg_messageId msg) = Some messageId →
  let r := on_message env ws (Json msg) σ in
  let notFound :=
    (ws, ack_seen messageId false (Some "Mensaje no encontrado en la cola")) in
  completion_of r = Normal () ∧
  clients (state_after r) = clients σ ∧
  connections (state_after r) = connections σ ∧
  (∀ key, key ≠ "chat:" +:+ userId →
          lrange_all (redis (state_after r)) key = lrange_all (redis σ) key) ∧
  (no_match messageId (queue σ userId) →
     state_after r = σ ∧ sent_by r = [notFound] ∧
     is_error_frame (snd notFound) = false) ∧
  (∀ i m, first_match messageId (queue σ userId) i m →
     queue (state_after r) userId = delete i (queue σ userId) ∧
     sent_by r =
       match live σ (cm_from m) with
       | Some w => [(w, message_seen messageId userId (Date_now env))]
       | None => []
       end ++ [(ws, ack_seen messageId true None)] ∧
     (no_match messageId (delete i (queue σ userId)) →
      ∀ env',
        let again := on_message env' ws (Json msg) (state_after r) in
        state_after again = state_after r ∧ sent_by again = [notFound])).
Proof.
  intros Hws Huser Htype Hid. cbn zeta.
  destruct (match_or_not messageId (queue σ userId))
    as [Hno|(i & m & Hfound)].
  - rewrite (seen_not_found env ws msg σ c userId messageId) by done.
    unfold completion_of, state_after, sent_by. cbn [fst snd].
    do 5 (split; [done|]).
    intros i m (Hi & Hid' & _). exfalso. apply (Hno m); [|done].
    by apply list_elem_of_lookup_2 in Hi.
  - rewrite (seen_found env ws msg σ c userId messageId i m) by done.
    unfold completion_of, state_after, sent_by. cbn [fst snd].
    do 3 (split; [done|]).
    split.
    { intros key Hkey. cbn [redis]. by rewrite lrange_store_list_ne. }
    split.
    { intros Hno. exfalso. destruct Hfound as (Hi & Hid' & _).
      apply (Hno m); [|done]. by apply list_elem_of_lookup_2 in Hi. }
    intros i' m' Hfound'.
    assert (i' = i ∧ m' = m) as [-> ->].
    { destruct Hfound as (Hi & Hm & Hfirst).
      destruct Hfound' as (Hi' & Hm' & Hfirst').
      destruct (Nat.lt_trichotomy i i') as [Hlt|[->|Hlt]].
      - by destruct (Hfirst' i m Hlt Hi).
      - by simplify_eq.
      - by destruct (Hfirst i' m' Hlt Hi'). }
    split.
    { unfold queue. cbn [redis]. by rewrite lrange_store_list_eq. }
    split; [done|].
    intros Hno env'.
    rewrite (seen_not_found env' ws msg _ c userId messageId); [done..|].
    unfold queue. cbn [redis]. by rewrite lrange_store_list_eq.
Qed.

Lemma notify_senders_live senders f σ :
  notify_senders senders f σ = (Normal (), σ, notifications σ senders f).
Proof.
  induction senders as [|u senders IH]; [done|].
  cbn [notify_senders]. unfold bind at 1, clients_get.
  unfold bind at 1. rewrite send_if_open_live. rewrite IH.
  unfold notifications. cbn [omap list_omap app].
  destruct (live σ u); reflexivity.
Qed.

Lemma Set_add_NoDup u senders : NoDup senders → NoDup (Set_add u senders).
Proof.
  intros Hnd. unfold Set_add. case_bool_decide; [done|].
  apply NoDup_app. split; [done|]. split.
  - intros v Hv [->|[]%elem_of_nil]%elem_of_cons. done.
  - apply NoDup_singleton.
Qed.

Lemma elem_of_Set_add v u senders : v ∈ Set_add u senders ↔ v = u ∨ v ∈ senders.
Proof.
  unfold Set_add. case_bool_decide;
    [|rewrite elem_of_app, list_elem_of_singleton; tauto].
  split; [auto|]. by intros [->|?].
Qed.

Lemma collect_senders_acc (allRaw : list RedisValue) (acc : list string) :
  let senders :=
    foldl (λ senders raw,
             match JSON_parse raw with
             | Some m => Set_add (cm_from m) senders
             | None => senders
             end) acc allRaw in
  (NoDup acc → NoDup senders) ∧
  ∀ u, u ∈ senders ↔
       u ∈ acc ∨ ∃ m, Stringified m ∈ allRaw ∧ cm_from m = u.
Proof.
  revert acc. induction allRaw as [|raw allRaw IH]; intros acc; cbn.
  - split; [done|]. intros u. split; [auto|].
    intros [?|(m & []%elem_of_nil & _)]. done.
  - destruct (IH (match JSON_parse raw with
                  | Some m => Set_add (cm_from m) acc
                  | None => acc
                  end)) as [Hnd Hin].
    split.
    + intros Hacc. apply Hnd. destruct raw; cbn; [|done].
      by apply Set_add_NoDup.
    + intros u. rewrite Hin. destruct raw as [m0|s]; cbn.
      * rewrite elem_of_Set_add. split.
        -- intros [[->|?]|(m & Hm & Hu)]; [right|by left|right].
           ++ exists m0. split; [by left|done].
           ++ exists m. split; [by right|done].
        -- intros [?|(m & [[= ->]|Hm]%elem_of_cons & Hu)];
             [by left; right|by left; left|right; eauto].
      * split.
        -- intros [?|(m & Hm & Hu)]; [by left|right].
           exists m. split; [by right|done].
        -- intros [?|(m & [[=]|Hm]%elem_of_cons & Hu)]; [by left|right; eauto].
Qed.

Lemma seen_all_run env ws msg σ c userId :
  connections σ !! ws = Some c → conn_userId c = Some userId →
  msg_type msg = Some "seen_all" →
  on_message env ws (Json msg) σ =
    (Normal (),
     {| clients := clients σ;
        redis := delete ("chat:" +:+ userId) (redis σ);
        connections := connections σ |},
     notifications σ (collect_senders (queue σ userId))
       (all_messages_seen userId (length (queue σ userId)) (Date_now env))
     ++ [(ws, ack_seen_all (length (queue σ userId)))]).
Proof.
  intros Hws Huser Htype. switch_on Htype.
  unfold case_seen_all, bind at 1, get_userId. rewrite Hws.
  cbn [mbind option_bind]. rewrite Huser.
  unfold bind at 1, redis_lrange. unfold bind at 1, redis_del, with_redis.
  unfold bind. rewrite notify_senders_live. unfold ws_send.
  reflexivity.
Qed.

(** C3 (amended).  A [seen_all] frame from a registered caller empties the
    caller's queue and no other.  With [N] the length of the queue, every
    distinct sender of a queued message that is live is sent exactly one
    [all_messages_seen] carrying [N], and a sender that is not live is sent
    nothing; the caller then gets [ack_seen_all] with [deletedCount = N]. *)
Theorem seen_all_drains (env : Env) (ws : ConnId) (msg : ClientMsg)
    (σ : Server) (c : Connection) (userId : string) :
  connections σ !! ws = Some c → conn_userId c = Some userId →
  msg_type msg = Some "seen_all" →
  let r := on_message env ws (Json msg) σ in
  let N := length (queue σ userId) in
  let senders := collect_senders (queue σ userId) in
  completion_of r = Normal () ∧
  queue (state_after r) userId = [] ∧
  (∀ key, key ≠ "chat:" +:+ userId →
          lrange_all (redis (state_after r)) key = lrange_all (redis σ) key) ∧
  clients (state_after r) = clients σ ∧
  connections (state_after r) = connections σ ∧
  NoDup senders ∧
  (∀ u, u ∈ senders ↔ ∃ m, Stringified m ∈ queue σ userId ∧ cm_from m = u) ∧
  sent_by r =
    omap (λ u, w ← live σ u;
               Some (w, all_messages_seen userId N (Date_now env))) senders
    ++ [(ws, ack_seen_all N)].
Proof.
  intros Hws Huser Htype. cbn zeta.
  rewrite (seen_all_run env ws msg σ c userId) by done.
  unfold completion_of, state_after, sent_by. cbn [fst snd].
  split; [done|]. split.
  { unfold queue, lrange_all. cbn [redis]. by rewrite lookup_delete_eq. }
  split.
  { intros key Hkey. unfold lrange_all. cbn [redis].
    by rewrite lookup_delete_ne. }
  do 2 (split; [done|]).
  destruct (collect_senders_acc (queue σ userId) []) as [Hnd Hin].
  split; [apply Hnd, NoDup_nil_2|]. split; [|done].
  intros u. unfold collect_senders. rewrite Hin. split.
  - by intros [[]%elem_of_nil|?].
  - auto.
Qed.

(** ** The texts in Redis parse, in every reachable state *)

Lemma preserves_ret {A} I (a : A) : preserves I (ret a).
Proof. by intros σ. Qed.

Lemma preserves_throw {A} I e : preserves I (@throw A e).
Proof. by intros σ. Qed.

Lemma preserves_bind {A B} I (m : Async A) (k : A → Async B) :
  preserves I m → (∀ a, preserves I (k a)) → preserves I (bind m k).
Proof.
  intros Hm Hk σ HI. unfold bind, state_after.
  specialize (Hm σ HI). unfold state_after in Hm.
  destruct (m σ) as [[[a|e] σ1] out1]; cbn in Hm |- *; [|done].
  specialize (Hk a σ1 Hm). unfold state_after in Hk.
  by destruct (k a σ1) as [[r σ2] out2].
Qed.

Lemma preserves_same_redis {A} (m : Async A) :
  (∀ σ, redis (state_after (m σ)) = redis σ) → preserves texts_parse m.
Proof. intros Hm σ HI key raw. rewrite Hm. apply HI. Qed.

Lemma elem_of_remove_first x v l : x ∈ remove_first v l → x ∈ l.
Proof.
  induction l as [|y l IH]; cbn; [done|].
  case_decide; [by right|]. intros [->|?]%elem_of_cons; [by left|].
  right. auto.
Qed.

Lemma preserves_redis_rpush key m :
  preserves texts_parse (redis_rpush key (JSON_stringify m)).
Proof.
  intros σ HI key' raw. cbn [redis_rpush with_redis state_after fst snd redis].
  destruct (decide (key = key')) as [<-|Hne].
  - rewrite lrange_store_list_eq.
    intros [?|Hraw%list_elem_of_singleton]%elem_of_app; [by apply (HI key)|].
    subst raw. by eexists.
  - rewrite lrange_store_list_ne by done. apply HI.
Qed.

Lemma preserves_redis_lrem1 key v : preserves texts_parse (redis_lrem1 key v).
Proof.
  intros σ HI key' raw. cbn [redis_lrem1 with_redis state_after fst snd redis].
  destruct (decide (key = key')) as [<-|Hne].
  - rewrite lrange_store_list_eq.
    intros ?%elem_of_remove_first. by apply (HI key).
  - rewrite lrange_store_list_ne by done. apply HI.
Qed.

Lemma preserves_redis_del key : preserves texts_parse (redis_del key).
Proof.
  intros σ HI key' raw. cbn [redis_del with_redis state_after fst snd redis].
  unfold lrange_all. destruct (decide (key = key')) as [<-|Hne].
  - rewrite lookup_delete_eq. by intros []%elem_of_nil.
  - rewrite lookup_delete_ne by done. apply HI.
Qed.

Create HintDb relay.

#[local] Hint Resolve preserves_ret preserves_throw preserves_redis_rpush
  preserves_redis_lrem1 preserves_redis_del : relay.

#[local] Hint Extern 1 (preserves texts_parse (ws_send _ _)) =>
  by apply preserves_same_redis : relay.
#[local] Hint Extern 1 (preserves texts_parse (ws_is_open _)) =>
  by apply preserves_same_redis : relay.
#[local] Hint Extern 1 (preserves texts_parse (get_userId _)) =>
  by apply preserves_same_redis : relay.
#[local] Hint Extern 1 (preserves texts_parse (set_userId _ _)) =>
  by apply preserves_same_redis : relay.
#[local] Hint Extern 1 (preserves texts_parse (clients_get _)) =>
  by apply preserves_same_redis : relay.
#[local] Hint Extern 1 (preserves texts_parse (clients_set _ _)) =>
  by apply preserves_same_redis : relay.
#[local] Hint Extern 1 (preserves texts_parse (clients_delete _)) =>
  by apply preserves_same_redis : relay.
#[local] Hint Extern 1 (preserves texts_parse (redis_lrange _)) =>
  by apply preserves_same_redis : relay.
#[local] Hint Extern 1 (preserves texts_parse (on_connection _)) =>
  by apply preserves_same_redis : relay.
#[local] Hint Extern 1 (preserves texts_parse (socket_closed _)) =>
  by apply preserves_same_redis : relay.

Ltac preserves_step :=
  first [ apply preserves_bind; [|intros ?]
        | progress auto with relay
        | case_match ].

Lemma preserves_send_if_open w f : preserves texts_parse (send_if_open w f).
Proof. unfold send_if_open. repeat preserves_step. Qed.

#[local] Hint Resolve preserves_send_if_open : relay.

Lemma preserves_parse_all pending : preserves texts_parse (parse_all pending).
Proof.
  induction pending as [|raw pending IH]; cbn [parse_all];
    repeat preserves_step.
Qed.

Lemma preserves_deleteMessage_loop key messageId l :
  preserves texts_parse (deleteMessage_loop key messageId l).
Proof.
  induction l as [|raw l IH]; cbn [deleteMessage_loop];
    repeat preserves_step.
Qed.

Lemma preserves_notify_senders senders f :
  preserves texts_parse (notify_senders senders f).
Proof.
  induction senders as [|u senders IH]; cbn [notify_senders];
    repeat preserves_step.
Qed.

#[local] Hint Resolve preserves_parse_all preserves_deleteMessage_loop
  preserves_notify_senders : relay.

Lemma preserves_on_message env ws raw :
  preserves texts_parse (on_message env ws raw).
Proof.
  unfold on_message, case_register, case_send_message, case_seen,
    case_seen_all, case_default, deliverPending, deleteMessageFromRedis.
  repeat preserves_step.
Qed.

Lemma preserves_handle e : preserves texts_parse (handle e).
Proof.
  destruct e; cbn [handle]; [auto with relay|apply preserves_on_message|].
  unfold on_close. repeat preserves_step.
Qed.

Lemma reachable_texts_parse σ : reachable σ → texts_parse σ.
Proof.
  induction 1 as [|σ e _ IH _].
  - intros key raw. unfold lrange_all. cbn. rewrite lookup_empty.
    by intros []%elem_of_nil.
  - by apply preserves_handle.
Qed.

(** ** Registration *)

Lemma parse_all_stringified messages σ :
  parse_all (map JSON_stringify messages) σ = (Normal messages, σ, []).
Proof.
  induction messages as [|m messages IH]; [done|].
  cbn [map parse_all JSON_stringify JSON_parse]. unfold bind. by rewrite IH.
Qed.

Lemma all_parse_stringified (l : list RedisValue) :
  (∀ raw, raw ∈ l → is_Some (JSON_parse raw)) →
  ∃ messages, l = map JSON_stringify messages.
Proof.
  induction l as [|raw l IH]; intros Hl.
  - by exists [].
  - destruct IH as [messages ->]; [intros; apply Hl; by right|].
    destruct (Hl raw) as [m Hm]; [by left|].
    destruct raw as [m'|]; [|done]. by exists (m' :: messages).
Qed.

Lemma register_run env ws msg σ userId messages :
  msg_type msg = Some "register" → truthy (msg_userId msg) = Some userId →
  queue σ userId = map JSON_stringify messages →
  on_message env ws (Json msg) σ =
    (Normal (),
     {| clients := <[userId := ws]> (clients σ);
        redis := redis σ;
        connections :=
          alter (λ c, {| conn_userId := Some userId;
                         conn_readyState := conn_readyState c |})
                ws (connections σ) |},
     match messages with
     | [] => []
     | _ => [(ws, pending_messages messages (length messages))]
     end).
Proof.
  intros Htype Hid Hqueue. switch_on Htype.
  unfold case_register. rewrite Hid.
  unfold bind at 1, set_userId. unfold bind at 1, clients_set.
  unfold deliverPending, bind at 1, redis_lrange. cbn [redis].
  fold (queue σ userId). rewrite Hqueue.
  destruct messages as [|m messages]; [done|].
  rewrite bool_decide_eq_true_2 by (cbn; lia).
  unfold bind. by rewrite parse_all_stringified.
Qed.

Lemma parse_all_state l σ : state_after (parse_all l σ) = σ.
Proof.
  induction l as [|raw l IH]; [done|]. cbn [parse_all].
  destruct raw; cbn [JSON_parse]; [|done].
  unfold bind, state_after in *.
  destruct (parse_all l σ) as [[[ms|e] σ'] out]; cbn in IH |- *; done.
Qed.

(** The state a [register] frame leaves, also when the flush throws on a
    text that does not parse. *)
Lemma register_state env ws msg σ userId :
  msg_type msg = Some "register" → truthy (msg_userId msg) = Some userId →
  state_after (on_message env ws (Json msg) σ) =
    {| clients := <[userId := ws]> (clients σ);
       redis := redis σ;
       connections :=
         alter (λ c, {| conn_userId := Some userId;
                        conn_readyState := conn_readyState c |})
               ws (connections σ) |}.
Proof.
  intros Htype Hid. switch_on Htype. unfold case_register. rewrite Hid.
  unfold bind at 1, set_userId. unfold bind at 1, clients_set.
  unfold deliverPending, bind at 1, redis_lrange.
  case_bool_decide; [|done].
  unfold bind, ws_send.
  match goal with |- context [parse_all ?l ?s] =>
    pose proof (parse_all_state l s) as Hs;
    destruct (parse_all l s) as [[[ms|e] σ'] out]
  end; unfold state_after in *; cbn in Hs |- *; done.
Qed.

Lemma registered_inv σ ws u :
  registered σ ws = Some u →
  ∃ c, connections σ !! ws = Some c ∧ conn_userId c = Some u.
Proof.
  unfold registered. destruct (connections σ !! ws) as [c|]; [|done].
  cbn. eauto.
Qed.

Lemma send_message_run env ws msg σ c userId to content :
  connections σ !! ws = Some c → conn_userId c = Some userId →
  msg_type msg = Some "send_message" →
  truthy (msg_to msg) = Some to → truthy (msg_content msg) = Some content →
  let chatMessage :=
    {| cm_id := uuidv4 env; cm_from := userId; cm_to := to;
       cm_content := content;
       cm_mediaType := default "text" (truthy (msg_mediaType msg));
       cm_timestamp := Date_now env |} in
  on_message env ws (Json msg) σ =
    (Normal (),
     {| clients := clients σ;
        redis := store_list ("chat:" +:+ to)
                   (queue σ to ++ [JSON_stringify chatMessage]) (redis σ);
        connections := connections σ |},
     (ws, message_sent (uuidv4 env) to (Date_now env)) ::
     match live σ to with
     | Some w => [(w, new_message chatMessage)]
     | None => []
     end).
Proof.
  intros Hws Huser Htype Hto Hcontent. cbn zeta. switch_on Htype.
  unfold case_send_message, bind at 1, get_userId. rewrite Hws.
  cbn [mbind option_bind]. rewrite Huser, Hto, Hcontent.
  unfold bind at 1, redis_rpush, with_redis.
  unfold bind at 1, ws_send. unfold bind, clients_get.
  cbn [clients].
  match goal with
  | |- context [send_if_open (clients σ !! ?u) ?f ?s] =>
      change (clients σ !! u) with (clients s !! u);
      rewrite (send_if_open_live u f s)
  end.
  reflexivity.
Qed.

(** Only a [seen] or a [seen_all] of its owner takes anything out of a
    queue: every other event keeps the queue, with at most a new message
    at its end. *)
Lemma queue_kept e σ u :
  ¬ acknowledges e σ u →
  queue σ u `prefix_of` queue (state_after (handle e σ)) u.
Proof.
  intros Hack.
  assert (∀ σ', redis σ' = redis σ → queue σ u `prefix_of` queue σ' u)
    as Hsame.
  { intros σ' Hσ'. unfold queue. by rewrite Hσ'. }
  destruct e as [ws|env ws raw|ws]; cbn [handle].
  - by apply Hsame.
  - destruct raw as [| |msg]; [by apply Hsame..|].
    unfold on_message, type_is.
    case_bool_decide as Hregister.
    { unfold case_register.
      destruct (truthy (msg_userId msg)) as [userId|] eqn:Hid;
        [|by apply Hsame].
      apply Hsame.
      pose proof (register_state env ws msg σ userId Hregister Hid) as Hst.
      revert Hst. switch_on Hregister. unfold case_register. rewrite Hid.
      by intros ->. }
    case_bool_decide as Hsend.
    { destruct (registered σ ws) as [userId|] eqn:Hreg.
      2:{ apply Hsame. unfold case_send_message, bind, get_userId.
          unfold registered in Hreg. by rewrite Hreg. }
      apply registered_inv in Hreg as (c & Hws & Huser).
      destruct (truthy (msg_to msg)) as [to|] eqn:Hto.
      2:{ apply Hsame. unfold case_send_message, bind, get_userId.
          rewrite Hws. cbn. by rewrite Huser, Hto. }
      destruct (truthy (msg_content msg)) as [content|] eqn:Hcontent.
      2:{ apply Hsame. unfold case_send_message, bind, get_userId.
          rewrite Hws. cbn. by rewrite Huser, Hto, Hcontent. }
      pose proof (send_message_run env ws msg σ c userId to content
                    Hws Huser Hsend Hto Hcontent) as Hrun.
      cbn zeta in Hrun. revert Hrun. switch_on Hsend. intros ->.
      unfold state_after, queue. cbn [fst snd redis].
      destruct (decide (to = u)) as [->|Hne].
      - rewrite lrange_store_list_eq. by apply prefix_app_r.
      - rewrite lrange_store_list_ne; [done|]. by intros ?%chat_key_inj. }
    case_bool_decide as Hseen.
    { destruct (registered σ ws) as [userId|] eqn:Hreg.
      2:{ apply Hsame. unfold case_seen, bind, get_userId.
          unfold registered in Hreg. by rewrite Hreg. }
      assert (userId ≠ u) as Hne.
      { intros ->. apply Hack. exists env, ws, msg. auto. }
      apply registered_inv in Hreg as (c & Hws & Huser).
      destruct (truthy (msg_messageId msg)) as [messageId|] eqn:Hid.
      2:{ apply Hsame. unfold case_seen, bind, get_userId.
          rewrite Hws. cbn. by rewrite Huser, Hid. }
      destruct (match_or_not messageId (queue σ userId))
        as [Hno|(i & m & Hfound)].
      - pose proof (seen_not_found env ws msg σ c userId messageId
                      Hws Huser Hseen Hid Hno) as Hrun.
        revert Hrun. switch_on Hseen. by intros ->.
      - pose proof (seen_found env ws msg σ c userId messageId i m
                      Hws Huser Hseen Hid Hfound) as Hrun.
        revert Hrun. switch_on Hseen. intros ->.
        unfold state_after, queue. cbn [fst snd redis].
        rewrite lrange_store_list_ne; [done|]. by intros ?%chat_key_inj. }
    case_bool_decide as Hall; [|by apply Hsame].
    destruct (registered σ ws) as [userId|] eqn:Hreg.
    2:{ apply Hsame. unfold case_seen_all, bind, get_userId.
        unfold registered in Hreg. by rewrite Hreg. }
    assert (userId ≠ u) as Hne.
    { intros ->. apply Hack. exists env, ws, msg. auto. }
    apply registered_inv in Hreg as (c & Hws & Huser).
    pose proof (seen_all_run env ws msg σ c userId Hws Huser Hall) as Hrun.
    revert Hrun. switch_on Hall. intros ->.
    unfold state_after, queue, lrange_all. cbn [fst snd redis].
    rewrite lookup_delete_ne; [done|]. by intros ?%chat_key_inj.
  - apply Hsame. unfold bind at 1, socket_closed.
    unfold on_close, bind, get_userId, state_after.
    by destruct (_ ≫= _).
Qed.

(** C4.  In a reachable state, a [register] frame with a user id binds the
    id to the socket, in the registry and in the connection, and leaves
    Redis as it is: the flush removes nothing.  The queued messages go out
    as one [pending_messages] frame, in queue order and with [count] the
    length of the queue, and no frame goes out when the queue is empty.
    In any state, an event that is not a [seen] or [seen_all] of the owner
    of a queue keeps every message of that queue. *)
Theorem register_flushes_queue (env : Env) (ws : ConnId) (msg : ClientMsg)
    (σ : Server) (userId : string) :
  reachable σ → is_Some (connections σ !! ws) →
  msg_type msg = Some "register" → truthy (msg_userId msg) = Some userId →
  let r := on_message env ws (Json msg) σ in
  completion_of r = Normal () ∧
  clients (state_after r) = <[userId := ws]> (clients σ) ∧
  registered (state_after r) ws = Some userId ∧
  redis (state_after r) = redis σ ∧
  (∃ messages,
     queue σ userId = map JSON_stringify messages ∧
     sent_by r =
       match messages with
       | [] => []
       | _ => [(ws, pending_messages messages (length (queue σ userId)))]
       end) ∧
  (∀ e σ0 u, ¬ acknowledges e σ0 u →
             queue σ0 u `prefix_of` queue (state_after (handle e σ0)) u).
Proof.
  intros Hreach [c Hws] Htype Hid. cbn zeta.
  destruct (all_parse_stringified (queue σ userId)) as [messages Hqueue].
  { intros raw. apply (reachable_texts_parse σ Hreach). }
  rewrite (register_run env ws msg σ userId messages) by done.
  unfold completion_of, state_after, sent_by, registered.
  cbn [fst snd clients redis connections].
  split; [done|]. split; [done|]. split.
  { rewrite lookup_alter_eq, Hws. done. }
  split; [done|]. split.
  { exists messages. split; [done|]. by rewrite Hqueue, length_map. }
  intros e σ0 u. apply queue_kept.
Qed.

(** ** Closing a connection *)

Lemma close_run ws σ c userId :
  connections σ !! ws = Some c → conn_userId c = Some userId →
  handle (Close ws) σ =
    (Normal (),
     {| clients := delete userId (clients σ);
        redis := redis σ;
        connections :=
          alter (λ c, {| conn_userId := conn_userId c;
                         conn_readyState := CLOSED |}) ws (connections σ) |},
     []).
Proof.
  intros Hws Huser. cbn [handle].
  unfold bind at 1, socket_closed. unfold on_close, bind, get_userId.
  cbn [connections]. rewrite lookup_alter_eq, Hws. cbn. by rewrite Huser.
Qed.

(** C6 (amended).  When the transport of a connection registered as [U]
    closes, the registry entry of [U] is deleted whatever socket it holds:
    also the entry of a newer connection that registered [U] since.  The
    entries of other identities and Redis stay as they are. *)
Theorem close_deletes_entry (ws : ConnId) (σ : Server) (c : Connection)
    (userId : string) :
  connections σ !! ws = Some c → conn_userId c = Some userId →
  let r := handle (Close ws) σ in
  clients (state_after r) = delete userId (clients σ) ∧
  clients (state_after r) !! userId = None ∧
  (∀ u, u ≠ userId → clients (state_after r) !! u = clients σ !! u) ∧
  redis (state_after r) = redis σ ∧
  sent_by r = [].
Proof.
  intros Hws Huser. cbn zeta. rewrite (close_run ws σ c userId) by done.
  unfold state_after, sent_by. cbn [fst snd clients redis].
  split; [done|]. split; [apply lookup_delete_eq|].
  split; [|done]. intros u Hu. by apply lookup_delete_ne.
Qed.

(** C10.  A connection registered as [U1] that registers again as another
    identity [U2] is afterwards the socket of both in the registry.  When it
    closes, only the entry of [U2] goes: the entry of [U1] stays, and holds
    a socket that is closed. *)
Theorem rebind_leaves_stale_entry (env : Env) (ws : ConnId) (msg : ClientMsg)
    (σ : Server) (c : Connection) (U1 U2 : string) :
  connections σ !! ws = Some c → conn_userId c = Some U1 →
  clients σ !! U1 = Some ws →
  msg_type msg = Some "register" → truthy (msg_userId msg) = Some U2 →
  U1 ≠ U2 →
  let σ1 := state_after (on_message env ws (Json msg) σ) in
  let σ2 := state_after (handle (Close ws) σ1) in
  clients σ1 !! U1 = Some ws ∧ clients σ1 !! U2 = Some ws ∧
  registered σ1 ws = Some U2 ∧
  clients σ2 !! U2 = None ∧ clients σ2 !! U1 = Some ws ∧
  live σ2 U1 = None ∧
  (conn_readyState <$> connections σ2 !! ws) = Some CLOSED.
Proof.
  intros Hws Huser Hreg Htype Hid Hne. cbn zeta.
  rewrite (register_state env ws msg σ U2) by done.
  rewrite (close_run ws _ {| conn_userId := Some U2;
                             conn_readyState := conn_readyState c |} U2);
    [|by cbn [connections]; rewrite lookup_alter_eq, Hws|done].
  unfold state_after, registered, live. cbn [fst snd clients connections].
  rewrite lookup_insert_ne by done. rewrite lookup_insert_eq.
  rewrite lookup_delete_eq, lookup_delete_ne by done.
  rewrite lookup_insert_ne by done. rewrite Hreg.
  rewrite !lookup_alter_eq, Hws. cbn.
  rewrite !lookup_alter_eq, Hws. done.
Qed.

(** ** Frames the server refuses *)

(** A text that does not parse, and a frame the protocol refuses, are
    answered by one [error] frame on the socket they came from, and change
    nothing. *)
Lemma refused_frame_gets_error env ws σ raw :
  raw = NotJson ∨ (∃ msg, raw = Json msg ∧ refused σ ws msg) →
  ∃ error validTypes,
    on_message env ws raw σ =
      (Normal (), σ, [(ws, error_frame error validTypes)]).
Proof.
  intros [->|(msg & -> & Href)]; [by eexists _, _|].
  unfold on_message, type_is.
  assert (∀ t : string, bool_decide (msg_type msg = Some t) = true →
                        msg_type msg = Some t) as Hdec.
  { intros t. apply bool_decide_eq_true_1. }
  assert (∀ t : string, bool_decide (msg_type msg = Some t) = false →
                        msg_type msg ≠ Some t) as Hdec'.
  { intros t. apply bool_decide_eq_false_1. }
  unfold refused, registered in Href.
  destruct (bool_decide (msg_type msg = Some "register")) eqn:H1.
  { apply Hdec in H1. unfold case_register.
    destruct Href as [[_ ?]|[Hv|[[_ Hf]|[[? _]|[? _]]]]]; try congruence.
    - destruct (Hv "register"); [|done]. unfold validTypes. set_solver.
    - rewrite Hf. by eexists _, _. }
  apply Hdec' in H1.
  destruct (bool_decide (msg_type msg = Some "send_message")) eqn:H2.
  { apply Hdec in H2. unfold case_send_message, bind, get_userId.
    destruct Href as [[Hu _]|[Hv|[[? _]|[[_ Hf]|[? _]]]]]; try congruence.
    - rewrite Hu. by eexists _, _.
    - destruct (Hv "send_message"); [|done]. unfold validTypes. set_solver.
    - destruct (_ ≫= _); [|by eexists _, _].
      destruct Hf as [-> | Hc]; [by eexists _, _|].
      rewrite Hc. destruct (truthy (msg_to msg)); by eexists _, _. }
  apply Hdec' in H2.
  destruct (bool_decide (msg_type msg = Some "seen")) eqn:H3.
  { apply Hdec in H3. unfold case_seen, bind, get_userId.
    destruct Href as [[Hu _]|[Hv|[[? _]|[[? _]|[_ Hf]]]]]; try congruence.
    - rewrite Hu. by eexists _, _.
    - destruct (Hv "seen"); [|done]. unfold validTypes. set_solver.
    - destruct (_ ≫= _); [|by eexists _, _]. rewrite Hf. by eexists _, _. }
  apply Hdec' in H3.
  destruct (bool_decide (msg_type msg = Some "seen_all")) eqn:H4.
  { apply Hdec in H4. unfold case_seen_all, bind, get_userId.
    destruct Href as [[Hu _]|[Hv|[[? _]|[[? _]|[? _]]]]]; try congruence.
    - rewrite Hu. by eexists _, _.
    - destruct (Hv "seen_all"); [|done]. unfold validTypes. set_solver. }
  by eexists _, _.
Qed.

(** C7, with the frame on which the code departs from it.  A text that does
    not parse and every frame the protocol refuses (any frame but [register]
    before registration, an unknown type, a missing field) get one [error]
    frame and change nothing.  The JSON text [null] gets none: it parses, so
    the guard around [JSON.parse] lets it through, and reading [msg.type]
    then throws; the handler ends with a [TypeError] and sends no frame. *)
Theorem null_frame_gets_no_reply (env : Env) (ws : ConnId) (σ : Server) :
  (∀ raw,
     raw = NotJson ∨ (∃ msg, raw = Json msg ∧ refused σ ws msg) →
     ∃ error validTypes,
       on_message env ws raw σ =
         (Normal (), σ, [(ws, error_frame error validTypes)])) ∧
  on_message env ws JsonNull σ =
    (Throw (TypeError "Cannot read properties of null (reading 'type')"),
     σ, []).
Proof.
  split.
  - intros raw Hraw. by apply refused_frame_gets_error.
  - reflexivity.
Qed.

End RelayFacts.

(** ** The relay theorems at concrete traces *)

Section RelayExamples.
Import Relay Scenario.

Ltac reach :=
  cbn [run];
  repeat (apply reachable_step; [|vm_compute; eauto]);
  apply reachable_init.

(** C2, at an input: Bob acknowledges the message Alice sent him. *)
Lemma seen_removes_one_witness :
  let σ := alice_sent_bob_registered in
  let r := on_message env1 1 (frame_seen "m1") σ in
  queue σ "bob" = [Stringified the_message] ∧
  queue (state_after r) "bob" = [] ∧
  sent_by r = [(0, message_seen "m1" "bob" 7); (1, ack_seen "m1" true None)].
Proof.
  intros σ r. split; [vm_compute; reflexivity|].
  destruct (seen_removes_one env1 1
              {| msg_type := Some "seen"; msg_userId := None; msg_to := None;
                 msg_content := None; msg_mediaType := None;
                 msg_messageId := Some "m1" |}
              σ {| conn_userId := Some "bob"; conn_readyState := OPEN |}
              "bob" "m1")
    as (_ & _ & _ & _ & _ & Hfound); [vm_compute; reflexivity..|].
  destruct (Hfound 0 the_message) as (Hqueue & Hsent & _).
  { split; [vm_compute; reflexivity|]. split; [reflexivity|]. intros; lia. }
  split.
  - unfold r, frame_seen. rewrite Hqueue. vm_compute. reflexivity.
  - unfold r, frame_seen. rewrite Hsent. vm_compute. reflexivity.
Defined.

(** C3, at an input: Bob acknowledges everything while Alice is live. *)
Lemma seen_all_drains_witness :
  let σ := alice_sent_bob_registered in
  let r := on_message env1 1 frame_seen_all σ in
  queue (state_after r) "bob" = [] ∧
  sent_by r = [(0, all_messages_seen "bob" 1 7); (1, ack_seen_all 1)].
Proof.
  intros σ r.
  destruct (seen_all_drains env1 1
              {| msg_type := Some "seen_all"; msg_userId := None;
                 msg_to := None; msg_content := None; msg_mediaType := None;
                 msg_messageId := None |}
              σ {| conn_userId := Some "bob"; conn_readyState := OPEN |} "bob")
    as (_ & Hqueue & _ & _ & _ & _ & _ & Hsent); [vm_compute; reflexivity..|].
  split.
  - exact Hqueue.
  - unfold r, frame_seen_all. rewrite Hsent. vm_compute. reflexivity.
Defined.

(** C3 as stated fails when a sender is not live: Bob's queue holds one
    message, from Alice, whose socket is closed; [seen_all] sends a frame to
    Bob and none to anybody else. *)
Lemma seen_all_sends_nothing_to_absent_sender :
  let σ := alice_gone_bob_registered in
  let r := on_message env1 1 frame_seen_all σ in
  queue σ "bob" = [Stringified the_message] ∧
  collect_senders (queue σ "bob") = ["alice"] ∧
  sent_by r = [(1, ack_seen_all 1)].
Proof. vm_compute. done. Qed.

(** C4, at an input: Bob registers and is sent the message that waited. *)
Lemma register_flushes_queue_witness :
  let σ := run [Connect 1] alice_sent in
  let r := on_message env1 1 (frame_register "bob") σ in
  clients (state_after r) !! "bob" = Some 1 ∧
  queue (state_after r) "bob" = [Stringified the_message] ∧
  sent_by r = [(1, pending_messages [the_message] 1)].
Proof.
  intros σ r.
  destruct (register_flushes_queue env1 1
              {| msg_type := Some "register"; msg_userId := Some "bob";
                 msg_to := None; msg_content := None; msg_mediaType := None;
                 msg_messageId := None |} σ "bob")
    as (_ & Hclients & _ & Hredis & _ & _);
    [unfold σ, alice_sent; reach|vm_compute; eauto|reflexivity..|].
  split; [|split].
  - unfold r, frame_register. rewrite Hclients. apply lookup_insert_eq.
  - unfold queue, r, frame_register. rewrite Hredis.
    vm_compute. reflexivity.
  - vm_compute. reflexivity.
Defined.

(** C6, at an input: Alice's socket closes and her entry goes. *)
Lemma close_deletes_entry_witness :
  let σ := alice_sent_bob_registered in
  clients σ !! "alice" = Some 0 ∧
  clients (state_after (handle (Close 0) σ)) !! "alice" = None.
Proof.
  intros σ. split; [vm_compute; reflexivity|].
  by destruct (close_deletes_entry 0 σ
                 {| conn_userId := Some "alice"; conn_readyState := OPEN |}
                 "alice")
    as (_ & Hnone & _); [vm_compute; reflexivity..|].
Defined.

(** C6 as stated fails: socket 0 registers ["u"], socket 1 registers ["u"]
    after it and now holds the entry; when socket 0 closes, the entry of
    socket 1 is deleted. *)
Lemma close_of_older_connection_evicts_newer :
  let σ := taken_over in
  registered σ 0 = Some "u" ∧ registered σ 1 = Some "u" ∧
  clients σ !! "u" = Some 1 ∧
  clients (state_after (handle (Close 0) σ)) !! "u" = None.
Proof. vm_compute. done. Qed.

(** C10, at an input: socket 0 registers ["u1"], then ["u2"], then
    closes. *)
Lemma rebind_leaves_stale_entry_witness :
  let σ := run [Connect 0; Message env1 0 (frame_register "u1")] init in
  let σ1 := state_after (on_message env1 0 (frame_register "u2") σ) in
  let σ2 := state_after (handle (Close 0) σ1) in
  clients σ1 !! "u1" = Some 0 ∧ clients σ1 !! "u2" = Some 0 ∧
  clients σ2 !! "u2" = None ∧ clients σ2 !! "u1" = Some 0 ∧
  live σ2 "u1" = None.
Proof.
  intros σ σ1 σ2.
  destruct (rebind_leaves_stale_entry env1 0
              {| msg_type := Some "register"; msg_userId := Some "u2";
                 msg_to := None; msg_content := None; msg_mediaType := None;
                 msg_messageId := None |}
              σ {| conn_userId := Some "u1"; conn_readyState := OPEN |}
              "u1" "u2")
    as (H1 & H2 & _ & H3 & H4 & H5 & _);
    [vm_compute; reflexivity..|discriminate|].
  done.
Defined.

End RelayExamples.

(** * Facts about the ghost-chat client *)

Section ClientFacts.
Context {P : Platform}.
Import GhostChat.

(** The delay [scheduleReconnect] computes after [n] attempts. *)
Lemma backoff_mono (n m : nat) :
  (n ≤ m)%nat →
  (Z.min (RECONNECT_BASE_MS * 2 ^ Z.of_nat n) RECONNECT_MAX_MS ≤
   Z.min (RECONNECT_BASE_MS * 2 ^ Z.of_nat m) RECONNECT_MAX_MS)%Z.
Proof.
  intros Hnm. unfold RECONNECT_BASE_MS, RECONNECT_MAX_MS.
  assert (2 ^ Z.of_nat n ≤ 2 ^ Z.of_nat m)%Z
    by (apply Z.pow_le_mono_r; lia).
  lia.
Qed.

Lemma delays_app e1 e2 : delays (e1 ++ e2) = delays e1 ++ delays e2.
Proof. unfold delays. apply omap_app. Qed.

Lemma scheduleReconnect_spec s :
  match reconnectTimer s with
  | Some _ => scheduleReconnect s = (s, [])
  | None =>
      let delay :=
        Z.min (RECONNECT_BASE_MS * 2 ^ Z.of_nat (reconnectAttempts s))
              RECONNECT_MAX_MS in
      snd (scheduleReconnect s) = [setTimeout delay] ∧
      reconnectAttempts (fst (scheduleReconnect s)) = S (reconnectAttempts s) ∧
      reconnectTimer (fst (scheduleReconnect s)) = Some delay
  end.
Proof. unfold scheduleReconnect. by destruct (reconnectTimer s). Qed.

Lemma scheduleReconnect_shape s :
  let r := scheduleReconnect s in
  (delays (snd r) = [] ∧ reconnectAttempts (fst r) = reconnectAttempts s) ∨
  (delays (snd r) =
     [Z.min (RECONNECT_BASE_MS * 2 ^ Z.of_nat (reconnectAttempts s))
            RECONNECT_MAX_MS] ∧
   reconnectAttempts (fst r) = S (reconnectAttempts s)).
Proof. unfold scheduleReconnect. destruct (reconnectTimer s); auto. Qed.

Lemma handleIncomingMessage_quiet chatMsg s :
  fst (handleIncomingMessage chatMsg s) = s ∧
  delays (snd (handleIncomingMessage chatMsg s)) = [].
Proof.
  unfold handleIncomingMessage, andThen, effect.
  by destruct (_ && _).
Qed.

Lemma handle_each_quiet messages s :
  fst (handle_each messages s) = s ∧ delays (snd (handle_each messages s)) = [].
Proof.
  induction messages as [|m messages IH]; [done|].
  cbn [handle_each]. unfold andThen. cbn [fst snd].
  destruct (handleIncomingMessage_quiet m s) as [-> Hd].
  destruct IH as [-> Hd']. split; [done|].
  by rewrite delays_app, Hd, Hd'.
Qed.

Lemma on_message_quiet frame s :
  fst (on_message frame s) = s ∧ delays (snd (on_message frame s)) = [].
Proof.
  destruct frame as [[]|]; cbn [on_message]; try done.
  - destruct messages as [|m messages]; [done|].
    unfold andThen, effect. cbn [fst snd].
    destruct (handle_each_quiet (m :: messages) s) as [-> Hd].
    split; [done|]. by rewrite delays_app, Hd.
  - apply handleIncomingMessage_quiet.
Qed.

(** What one event does to the counter and to the timers: it schedules
    nothing and keeps the counter, or sets it to 0 when it is a reset; or it
    schedules one delay, the one of the current counter, and adds one to the
    counter. *)
Lemma handle_shape e s :
  let r := handle e s in
  (delays (snd r) = [] ∧
   (reconnectAttempts (fst r) = reconnectAttempts s ∨
    resets e = true ∧ reconnectAttempts (fst r) = 0)) ∨
  (delays (snd r) =
     [Z.min (RECONNECT_BASE_MS * 2 ^ Z.of_nat (reconnectAttempts s))
            RECONNECT_MAX_MS] ∧
   reconnectAttempts (fst r) = S (reconnectAttempts s)).
Proof.
  destruct e; cbn [handle].
  - (* the session starts *)
    unfold handlePasswordSubmit.
    destruct alias; [by left; auto|]. destruct pw; [by left; auto|].
    unfold andThen, effect, connectWebSocket. cbn [fst snd].
    destruct (ws_is_live _); [by left; auto|].
    destruct constructed; [by left; auto|].
    unfold andThen, effect, scheduleReconnect. cbn [fst snd app].
    destruct (reconnectTimer s); cbn; auto.
  - (* the timer fires *)
    unfold reconnectTimer_fired.
    destruct (sessionPassword _) as [[|]|]; [by left; auto| |by left; auto].
    destruct (userId _) as [[|]|]; [by left; auto| |by left; auto].
    unfold connectWebSocket. destruct (ws_is_live _); [by left; auto|].
    destruct constructed; [by left; auto|].
    unfold andThen, effect. cbn [fst snd app].
    right. by cbn.
  - left. unfold andThen, socket_becomes, on_open, modify, effect.
    cbn [fst snd]. destruct (ws s) eqn:Hw; cbn; rewrite ?Hw; cbn; auto.
  - unfold andThen, socket_becomes, on_close, modify, effect.
    cbn [fst snd app].
    unfold scheduleReconnect.
    destruct (ws s) eqn:Hw; cbn; destruct (reconnectTimer s); cbn; auto.
  - left. auto.
  - destruct (on_message_quiet frame s) as [-> ->]. left. auto.
  - left. split; [|right; done]. cbn.
    by destruct (reconnectTimer s), (ws s).
Qed.

Lemma run_app_delays events s :
  forallb (λ e, negb (resets e)) events = true →
  ∃ k,
    delays (snd (run events s)) =
      map (λ i, Z.min (RECONNECT_BASE_MS *
                         2 ^ Z.of_nat (reconnectAttempts s + i))
                      RECONNECT_MAX_MS) (seq 0 k) ∧
    reconnectAttempts (fst (run events s)) = reconnectAttempts s + k.
Proof.
  revert s. induction events as [|e events IH]; intros s Hno.
  - exists 0. by rewrite Nat.add_0_r.
  - cbn [forallb] in Hno. apply andb_prop in Hno as [He Hno].
    cbn [run]. unfold andThen. cbn [fst snd]. rewrite delays_app.
    destruct (IH (fst (handle e s)) Hno) as (k & -> & ->).
    destruct (handle_shape e s) as [[-> [->|[Hr _]]]|[-> ->]].
    + by exists k.
    + by rewrite Hr in He.
    + exists (S k). cbn [seq map app]. rewrite Nat.add_0_r.
      split; [|lia]. f_equal. rewrite <- seq_shift, map_map.
      apply map_ext. intros i. do 4 f_equal. lia.
Qed.

(** After an open, until something is scheduled the counter is 0. *)
Lemma first_delay_from_zero events s :
  reconnectAttempts s = 0 →
  ∀ d, head (delays (snd (run events s))) = Some d → d = RECONNECT_BASE_MS.
Proof.
  revert s. induction events as [|e events IH]; intros s H0 d; [done|].
  cbn [run]. unfold andThen. cbn [fst snd]. rewrite delays_app.
  destruct (handle_shape e s) as [[-> [Heq|[_ Heq]]]|[-> _]].
  - apply IH. by rewrite Heq.
  - by apply IH.
  - rewrite H0. cbn. by intros [= <-].
Qed.

(** C8.  In a run of events without a successful open (and without the end
    of the session), the delays given to [setTimeout] are, in order,
    [min(1000 * 2^n, 15000)] for [n] the counter at the start, then [n+1],
    and so on: they never decrease.  A successful open sets the counter to
    0, and whatever follows, the next delay scheduled is 1000. *)
Theorem reconnect_backoff (s : State) (events : list Event) :
  forallb (λ e, negb (resets e)) events = true →
  let ds := delays (snd (run events s)) in
  (∀ i d, ds !! i = Some d →
          d = Z.min (1000 * 2 ^ Z.of_nat (reconnectAttempts s + i)) 15000) ∧
  (∀ i j d d', (i ≤ j)%nat → ds !! i = Some d → ds !! j = Some d' →
               (d ≤ d')%Z) ∧
  (∀ s0, reconnectAttempts (fst (handle SocketOpen s0)) = 0) ∧
  (∀ s0 after d,
     head (delays (snd (run after (fst (handle SocketOpen s0))))) = Some d →
     d = 1000%Z).
Proof.
  intros Hno. cbn zeta.
  destruct (run_app_delays events s Hno) as (k & -> & _).
  assert (∀ i d,
    map (λ i, Z.min (RECONNECT_BASE_MS *
                       2 ^ Z.of_nat (reconnectAttempts s + i))
                    RECONNECT_MAX_MS) (seq 0 k) !! i = Some d →
    d = Z.min (1000 * 2 ^ Z.of_nat (reconnectAttempts s + i)) 15000) as Hd.
  { intros i d. rewrite list_lookup_fmap.
    destruct (seq 0 k !! i) as [n|] eqn:Hn; [|done].
    apply lookup_seq in Hn as [-> _]. by intros [= <-]. }
  split; [exact Hd|]. split.
  { intros i j d d' Hij ->%Hd ->%Hd.
    apply (backoff_mono (reconnectAttempts s + i) (reconnectAttempts s + j)).
    lia. }
  assert (∀ s0, reconnectAttempts (fst (handle SocketOpen s0)) = 0) as Hopen.
  { intros s0. cbn [handle].
    unfold andThen, socket_becomes, on_open, modify, effect. cbn [fst snd].
    destruct (ws s0) eqn:Hw; cbn; rewrite ?Hw; cbn; done. }
  split; [exact Hopen|].
  intros s0 after d. by apply first_delay_from_zero.
Qed.

(** ** Acknowledging what is received *)

Lemma decrypt_content_shape chatMsg s :
  ∃ text,
    match decrypt_content chatMsg s with
    | Ok t => text = t
    | Err _ => text = "Ruido ilegible"
    end.
Proof. destruct (decrypt_content chatMsg s); eauto. Qed.

Lemma handleIncomingMessage_received chatMsg s :
  Some (Relay.cm_from chatMsg) ≠ userId s → ws s = Some Relay.OPEN →
  handleIncomingMessage chatMsg s =
    (s, [addMessage match decrypt_content chatMsg s with
                    | Ok text => text
                    | Err _ => "Ruido ilegible"
                    end received (Some chatMsg);
         ws_send (seen (Relay.cm_id chatMsg))]).
Proof.
  intros Hfrom Hws. unfold handleIncomingMessage, andThen, effect, ws_is_open.
  rewrite Hws.
  rewrite (bool_decide_eq_false_2 (Some (Relay.cm_from chatMsg) = userId s))
    by done.
  reflexivity.
Qed.

Lemma handle_each_received messages s :
  Forall (λ m, Some (Relay.cm_from m) ≠ userId s) messages →
  ws s = Some Relay.OPEN →
  sent_frames (snd (handle_each messages s)) =
    map (λ m, seen (Relay.cm_id m)) messages.
Proof.
  intros Hall Hws. induction Hall as [|m messages Hm _ IH]; [done|].
  cbn [handle_each]. unfold andThen.
  rewrite handleIncomingMessage_received by done. cbn [fst snd].
  unfold sent_frames in *. rewrite omap_app, IH. done.
Qed.

(** C9 (amended).  While its socket is open, the client answers every
    message it receives from another identity, in [new_message] or as an
    entry of [pending_messages], with a [seen] frame for the id of the
    message, sent right after the message is rendered and with nothing in
    between; the rendered text is the placeholder when the content does not
    decrypt.  This holds of both versions of [handleIncomingMessage]. *)
Theorem received_message_is_acknowledged (s : State)
    (chatMsg : Relay.ChatMessage) :
  Some (Relay.cm_from chatMsg) ≠ userId s → ws s = Some Relay.OPEN →
  (∃ text,
     snd (on_message (Some (Relay.new_message chatMsg)) s) =
       [addMessage text received (Some chatMsg);
        ws_send (seen (Relay.cm_id chatMsg))] ∧
     (∀ e, decrypt_content chatMsg s = Err e → text = "Ruido ilegible")) ∧
  (∃ content mediaType,
     snd (GhostChatMedia.handleIncomingMessage chatMsg s) =
       [GhostChatMedia.addMessage content mediaType received (Some chatMsg);
        GhostChatMedia.ws_send (seen (Relay.cm_id chatMsg))] ∧
     (∀ e, decrypt_content chatMsg s = Err e →
           content = "Ruido ilegible")) ∧
  (∀ messages count,
     Forall (λ m, Some (Relay.cm_from m) ≠ userId s) messages →
     sent_frames (snd (on_message
                         (Some (Relay.pending_messages messages count)) s)) =
       map (λ m, seen (Relay.cm_id m)) messages).
Proof.
  intros Hfrom Hws. split; [|split].
  - cbn [on_message]. rewrite handleIncomingMessage_received by done.
    eexists. split; [reflexivity|]. by intros e ->.
  - unfold GhostChatMedia.handleIncomingMessage, ws_is_open.
    rewrite Hws.
    rewrite (bool_decide_eq_false_2 (Some (Relay.cm_from chatMsg) = userId s))
      by done.
    cbn [snd andb].
    destruct (decrypt_content chatMsg s) as [text|e] eqn:Hdec.
    + destruct (Relay.truthy (Some text)); eexists _, _;
        (split; [reflexivity|done]).
    + eexists _, _. split; [reflexivity|done].
  - intros messages count Hall. cbn [on_message].
    destruct messages as [|m messages]; [done|].
    unfold andThen, effect. cbn [fst snd app].
    unfold sent_frames. cbn [omap list_omap].
    by apply handle_each_received.
Qed.

End ClientFacts.

(** C8, at an input: six attempts that fail one after the other. *)
Lemma reconnect_backoff_witness :
  forallb (λ e, negb (GhostChat.resets e)) Session.six_failures = true ∧
  GhostChat.delays
    (snd (GhostChat.run (P := SamplePlatform.sample) Session.six_failures
            Session.connecting)) =
    [1000; 2000; 4000; 8000; 15000; 15000]%Z ∧
  ∀ i j d d', (i ≤ j)%nat →
    GhostChat.delays
      (snd (GhostChat.run (P := SamplePlatform.sample) Session.six_failures
              Session.connecting)) !! i = Some d →
    GhostChat.delays
      (snd (GhostChat.run (P := SamplePlatform.sample) Session.six_failures
              Session.connecting)) !! j = Some d' →
    (d ≤ d')%Z.
Proof.
  split; [reflexivity|]. split; [vm_compute; reflexivity|].
  apply (@reconnect_backoff SamplePlatform.sample Session.connecting
           Session.six_failures). reflexivity.
Defined.

(** C9, at an input: a message from Bob whose content does not decrypt is
    rendered as the placeholder and acknowledged at once. *)
Lemma received_message_is_acknowledged_witness :
  Some "bob" ≠ GhostChat.userId Session.connected ∧
  GhostChat.ws Session.connected = Some Relay.OPEN ∧
  GhostChat.sent_frames
    (snd (GhostChat.on_message (P := SamplePlatform.sample)
            (Some (Relay.pending_messages [Session.from_bob] 1))
            Session.connected)) = [GhostChat.seen "m1"].
Proof.
  split; [discriminate|]. split; [reflexivity|].
  destruct (@received_message_is_acknowledged SamplePlatform.sample
              Session.connected Session.from_bob) as (_ & _ & Hpending);
    [discriminate|reflexivity|].
  rewrite Hpending; [reflexivity|].
  constructor; [discriminate|constructor].
Defined.

(** C9 as stated fails for a message the client sent to its own identity:
    it is addressed to the client, it is rendered, and no [seen] is sent for
    it, by either version. *)
Lemma own_message_is_not_acknowledged :
  Relay.cm_to Session.from_herself = "alice" ∧
  GhostChat.userId Session.connected = Some "alice" ∧
  GhostChat.ws Session.connected = Some Relay.OPEN ∧
  snd (GhostChat.on_message (P := SamplePlatform.sample)
         (Some (Relay.new_message Session.from_herself)) Session.connected) =
    [GhostChat.addMessage "Ruido ilegible" GhostChat.sent
       (Some Session.from_herself)] ∧
  snd (GhostChatMedia.handleIncomingMessage (P := SamplePlatform.sample)
         Session.from_herself Session.connected) =
    [GhostChatMedia.addMessage "Ruido ilegible" "text" GhostChat.sent
       (Some Session.from_herself)].
Proof. vm_compute. done. Qed.


(** * More facts about the relay server *)

Section RelayPathsFacts.
Import Relay RelayPaths.



Lemma truthy_Some v u : truthy v = Some u → v = Some u.
Proof. destruct v as [[|a s]|]; cbn; [done| |done]. by intros [= <-]. Qed.


Lemma registered_Some σ ws c u :
  connections σ !! ws = Some c → conn_userId c = Some u →
  registered σ ws = Some u.
Proof. intros Hws Hu. unfold registered. by rewrite Hws. Qed.







(** X1.  A [send_message] frame with a recipient and a content, from a
    registered socket, adds one message at the end of the recipient's queue
    and touches no other queue; the message carries the sender's identity
    and the content as given.  The sender gets [message_sent], and the
    recipient, when live, gets the message as [new_message]: the push comes
    with the queuing, never in place of it. *)
Theorem send_message_queues_and_pushes (env : Env) (ws : ConnId)
    (msg : ClientMsg) (σ : Server) (u to content : string) :
  registered σ ws = Some u → msg_type msg = Some "send_message" →
  truthy (msg_to msg) = Some to → truthy (msg_content msg) = Some content →
  let r := on_message env ws (Json msg) σ in
  let m := chatMessage_of env u to content msg in
  completion_of r = Normal () ∧
  queue (state_after r) to = queue σ to ++ [JSON_stringify m] ∧
  (∀ key, key ≠ "chat:" +:+ to →
          lrange_all (redis (state_after r)) key = lrange_all (redis σ) key) ∧
  clients (state_after r) = clients σ ∧
  connections (state_after r) = connections σ ∧
  sent_by r =
    (ws, message_sent (uuidv4 env) to (Date_now env)) ::
    match live σ to with
    | Some w => [(w, new_message m)]
    | None => []
    end ∧
  cm_from m = u ∧ cm_to m = to ∧ cm_content m = content.
Proof.
  intros Hu Htype Hto Hcontent. cbn zeta.
  destruct (registered_inv σ ws u Hu) as (c & Hws & Huser).
  pose proof (send_message_run env ws msg σ c u to content
                Hws Huser Htype Hto Hcontent) as Hrun.
  cbn zeta in Hrun. rewrite Hrun.
  unfold completion_of, state_after, sent_by. cbn [fst snd].
  split; [done|]. split; [apply lrange_store_list_eq|]. split.
  { intros key Hkey. by apply lrange_store_list_ne. }
  done.
Qed.

Lemma delete_last_app {A} (l : list A) (x : A) :
  delete (length l) (l ++ [x]) = l.
Proof. induction l as [|y l IH]; [done|]. cbn. f_equal. exact IH. Qed.

(** The [seen] of the recipient right after the [send_message], as one
    equation. *)
Lemma seen_after_send env env' wa wb msg ack σ a b content :
  registered σ wa = Some a → registered σ wb = Some b →
  msg_type msg = Some "send_message" →
  truthy (msg_to msg) = Some b → truthy (msg_content msg) = Some content →
  msg_type ack = Some "seen" →
  truthy (msg_messageId ack) = Some (uuidv4 env) →
  no_match (uuidv4 env) (queue σ b) →
  on_message env' wb (Json ack)
    (state_after (on_message env wa (Json msg) σ)) =
    (Normal (),
     {| clients := clients σ;
        redis :=
          store_list ("chat:" +:+ b) (queue σ b)
            (store_list ("chat:" +:+ b)
               (queue σ b ++
                [Stringified (chatMessage_of env a b content msg)])
               (redis σ));
        connections := connections σ |},
     match live σ a with
     | Some w => [(w, message_seen (uuidv4 env) b (Date_now env'))]
     | None => []
     end ++ [(wb, ack_seen (uuidv4 env) true None)]).
Proof.
  intros Ha Hb Htype Hto Hcontent Hack Hid Hfresh.
  destruct (registered_inv σ wa a Ha) as (ca & Hwa & Hua).
  destruct (registered_inv σ wb b Hb) as (cb & Hwb & Hub).
  pose proof (send_message_run env wa msg σ ca a b content
                Hwa Hua Htype Hto Hcontent) as Hrun.
  cbn zeta in Hrun. rewrite Hrun. clear Hrun.
  unfold state_after. cbn [fst snd]. unfold JSON_stringify.
  fold (chatMessage_of env a b content msg).
  set (m := chatMessage_of env a b content msg).
  set (σ1 := {| clients := clients σ;
                redis := store_list ("chat:" +:+ b)
                           (queue σ b ++ [Stringified m]) (redis σ);
                connections := connections σ |}).
  assert (queue σ1 b = queue σ b ++ [Stringified m]) as Hq1
    by apply lrange_store_list_eq.
  assert (first_match (uuidv4 env) (queue σ1 b) (length (queue σ b)) m)
    as Hfound.
  { rewrite Hq1. split; [|split; [done|]].
    - by rewrite lookup_app_r, Nat.sub_diag by lia.
    - intros j m' Hj Hl. rewrite lookup_app_l in Hl by done.
      apply Hfresh. by apply list_elem_of_lookup_2 in Hl. }
  rewrite (seen_found env' wb ack σ1 cb b (uuidv4 env)
             (length (queue σ b)) m) by done.
  by rewrite Hq1, delete_last_app.
Qed.

(** X2.  A message sent under an id no queued message of the recipient has,
    and then acknowledged by the recipient with that id, leaves every queue
    as it was before the send; the sender, when live, is sent
    [message_seen], and the recipient gets [ack_seen] with
    [deleted: true]. *)
Theorem send_then_seen_restores_queue (env env' : Env) (wa wb : ConnId)
    (msg ack : ClientMsg) (σ : Server) (a b content : string) :
  registered σ wa = Some a → registered σ wb = Some b →
  msg_type msg = Some "send_message" →
  truthy (msg_to msg) = Some b → truthy (msg_content msg) = Some content →
  msg_type ack = Some "seen" →
  truthy (msg_messageId ack) = Some (uuidv4 env) →
  no_match (uuidv4 env) (queue σ b) →
  let σ1 := state_after (on_message env wa (Json msg) σ) in
  let r := on_message env' wb (Json ack) σ1 in
  (∀ key, lrange_all (redis (state_after r)) key = lrange_all (redis σ) key) ∧
  clients (state_after r) = clients σ ∧
  connections (state_after r) = connections σ ∧
  sent_by r =
    match live σ a with
    | Some w => [(w, message_seen (uuidv4 env) b (Date_now env'))]
    | None => []
    end ++ [(wb, ack_seen (uuidv4 env) true None)].
Proof.
  intros Ha Hb Htype Hto Hcontent Hack Hid Hfresh. cbn zeta.
  rewrite (seen_after_send env env' wa wb msg ack σ a b content) by done.
  unfold state_after, sent_by. cbn [fst snd clients connections redis].
  split; [|done].
  intros key. destruct (decide (key = "chat:" +:+ b)) as [->|Hne].
  - apply lrange_store_list_eq.
  - by rewrite !lrange_store_list_ne.
Qed.







(** X6.  The delay before the Redis client connects again never exceeds
    5000 ms and never decreases with the number of attempts: it is 200 ms
    times the attempt up to the 25th, and 5000 ms from then on. *)
Theorem retryStrategy_capped (times : Z) (more : nat) :
  (retryStrategy times ≤ 5000)%Z ∧
  (retryStrategy times ≤ retryStrategy (times + Z.of_nat more))%Z ∧
  retryStrategy (25 + Z.of_nat more) = 5000%Z ∧
  retryStrategy (25 - Z.of_nat more) = ((25 - Z.of_nat more) * 200)%Z.
Proof. unfold retryStrategy. lia. Qed.

End RelayPathsFacts.

(** ** The paths of the relay at concrete traces *)

Section RelayPathsExamples.
Import Relay Scenario RelayPaths.


(** X1, at an input: Alice sends a second message to Bob, who is live and
    has not acknowledged the first. *)
Lemma send_message_queues_and_pushes_witness :
  let σ := alice_sent_bob_registered in
  let r := on_message env2 0 (frame_send_message "bob" "D") σ in
  queue (state_after r) "bob" =
    [Stringified the_message; Stringified second_message] ∧
  sent_by r = [(0, message_sent "m2" "bob" 9);
               (1, new_message second_message)].
Proof.
  intros σ r.
  destruct (send_message_queues_and_pushes env2 0
              {| msg_type := Some "send_message"; msg_userId := None;
                 msg_to := Some "bob"; msg_content := Some "D";
                 msg_mediaType := None; msg_messageId := None |}
              σ "alice" "bob" "D")
    as (_ & Hqueue & _ & _ & _ & Hsent & _); [vm_compute; reflexivity..|].
  split.
  - unfold r, frame_send_message. rewrite Hqueue. vm_compute. reflexivity.
  - unfold r, frame_send_message. rewrite Hsent. vm_compute. reflexivity.
Defined.

(** X2, at an input: Alice sends a second message to Bob and Bob
    acknowledges it; his queue holds the first message again, alone. *)
Lemma send_then_seen_restores_queue_witness :
  let σ := alice_sent_bob_registered in
  let σ1 := state_after (on_message env2 0 (frame_send_message "bob" "D") σ) in
  let r := on_message env3 1 (frame_seen "m2") σ1 in
  queue (state_after r) "bob" = [Stringified the_message] ∧
  sent_by r = [(0, message_seen "m2" "bob" 11); (1, ack_seen "m2" true None)].
Proof.
  intros σ σ1 r.
  destruct (send_then_seen_restores_queue env2 env3 0 1
              {| msg_type := Some "send_message"; msg_userId := None;
                 msg_to := Some "bob"; msg_content := Some "D";
                 msg_mediaType := None; msg_messageId := None |}
              {| msg_type := Some "seen"; msg_userId := None; msg_to := None;
                 msg_content := None; msg_mediaType := None;
                 msg_messageId := Some "m2" |}
              σ "alice" "bob" "D")
    as (Hqueue & _ & _ & Hsent); [vm_compute; reflexivity..| |].
  { intros m Hm. vm_compute in Hm.
    apply list_elem_of_singleton in Hm. injection Hm as ->. discriminate. }
  split.
  - unfold queue, r, σ1, frame_seen, frame_send_message. rewrite Hqueue.
    vm_compute. reflexivity.
  - unfold r, σ1, frame_seen, frame_send_message. rewrite Hsent.
    vm_compute. reflexivity.
Defined.



End RelayPathsExamples.

(** * More of the crypto modules *)

Section CryptoPaths.
Context {P : Platform} {spec : PlatformSpec P}.

Ltac node_consts :=
  unfold CryptoModule.IV_LENGTH, CryptoModule.AUTH_TAG_LENGTH,
    CryptoModule.SALT_LENGTH, CryptoModule.KEY_LENGTH in *.

Ltac browser_consts :=
  unfold CryptoBrowser.IV_LENGTH, CryptoBrowser.AUTH_TAG_LENGTH,
    CryptoBrowser.SALT_LENGTH, CryptoBrowser.KEY_LENGTH in *.

Lemma draw_app n m e : draw n e ++ draw m (advance n e) = draw (n + m) e.
Proof. unfold draw, advance. cbn. by rewrite seq_app, map_app. Qed.

Lemma advance_advance n m e : advance m (advance n e) = advance (n + m) e.
Proof. unfold advance. cbn. f_equal. lia. Qed.

Lemma encrypt_run plaintext key aad e :
  length key = 32 →
  let sealed := aes_256_gcm_encrypt key (draw 12 e)
                  (CryptoModule.aad_bytes aad)
                  (CryptoModule.to_buffer plaintext) in
  CryptoModule.encrypt plaintext key aad e =
    (Ok {| CryptoModule.encrypted := draw 12 e ++ snd sealed ++ fst sealed;
           CryptoModule.iv := draw 12 e;
           CryptoModule.authTag := snd sealed |},
     advance 12 e).
Proof.
  intros Hkey. unfold CryptoModule.encrypt. node_consts.
  rewrite Hkey. reflexivity.
Qed.

Lemma decrypt_run iv tag ciphertext key aad e :
  length key = 32 → length iv = 12 → length tag = 16 → ciphertext ≠ [] →
  CryptoModule.decrypt (iv ++ tag ++ ciphertext) key aad e =
    (match aes_256_gcm_decrypt key iv (CryptoModule.aad_bytes aad)
             ciphertext tag with
     | Some plain => Ok plain
     | None => Err AuthenticationFailed
     end, e).
Proof.
  intros Hkey Hiv Htag Hct. unfold CryptoModule.decrypt. node_consts.
  rewrite Hkey. cbn [Nat.eqb negb].
  assert (0 < length ciphertext) by (destruct ciphertext; [done|cbn; lia]).
  rewrite (proj2 (Nat.ltb_ge _ _)) by (rewrite !length_app; lia).
  rewrite take_app_length' by done.
  rewrite (drop_app_length' iv _ 12) by done.
  rewrite (take_app_length' tag) by done.
  rewrite app_assoc, drop_app_length' by (rewrite length_app; lia).
  by destruct (aes_256_gcm_decrypt _ _ _ _ _).
Qed.

Lemma decrypt_sealed plaintext key aad e e' :
  length key = 32 → CryptoModule.to_buffer plaintext ≠ [] →
  let sealed := aes_256_gcm_encrypt key (draw 12 e)
                  (CryptoModule.aad_bytes aad)
                  (CryptoModule.to_buffer plaintext) in
  CryptoModule.decrypt (draw 12 e ++ snd sealed ++ fst sealed) key aad e' =
    (Ok (CryptoModule.to_buffer plaintext), e').
Proof.
  intros Hkey Hdata. cbn zeta.
  rewrite decrypt_run; auto using length_draw, gcm_tag_length.
  - by rewrite gcm_decrypt_encrypt.
  - intros Hnil.
    pose proof (gcm_ciphertext_length key (draw 12 e)
                  (CryptoModule.aad_bytes aad)
                  (CryptoModule.to_buffer plaintext)) as Hlen.
    rewrite Hnil in Hlen. symmetry in Hlen. by apply nil_length_inv in Hlen.
Qed.

(** X7.  With a key of 32 bytes and data that is not empty, [encrypt] of the
    Node module draws 12 random bytes as the nonce and packs
    nonce ‖ tag ‖ ciphertext, 28 bytes more than the data; [decrypt] of the
    packed buffer under the same key and the same associated data returns
    the data, whether it was given as a Buffer or as a text (then its UTF-8
    bytes). *)
Theorem encrypt_decrypt_round_trip (plaintext : Data) (key : list byte)
    (aad : option Data) (e : Entropy) :
  length key = 32 → CryptoModule.to_buffer plaintext ≠ [] →
  ∃ sealed,
    CryptoModule.encrypt plaintext key aad e = (Ok sealed, advance 12 e) ∧
    CryptoModule.iv sealed = draw 12 e ∧
    length (CryptoModule.authTag sealed) = 16 ∧
    (∃ ciphertext,
       CryptoModule.encrypted sealed =
         CryptoModule.iv sealed ++ CryptoModule.authTag sealed ++ ciphertext ∧
       length ciphertext = length (CryptoModule.to_buffer plaintext)) ∧
    ∀ e', CryptoModule.decrypt (CryptoModule.encrypted sealed) key aad e' =
            (Ok (CryptoModule.to_buffer plaintext), e').
Proof.
  intros Hkey Hdata. rewrite encrypt_run by done. cbn zeta.
  eexists. split; [reflexivity|]. cbn [CryptoModule.iv CryptoModule.authTag
                                       CryptoModule.encrypted].
  split; [done|]. split; [apply gcm_tag_length|]. split.
  { eexists. split; [reflexivity|]. apply gcm_ciphertext_length. }
  intros e'. by apply decrypt_sealed.
Qed.

(** X8.  What the Node module refuses, and that it refuses before anything
    else happens: with a key that is not of 32 bytes, [encrypt] and
    [decrypt] throw a TypeError and [encrypt] has drawn no random byte; a
    packed buffer under 29 bytes is a TypeError of [decrypt]; and what
    [encrypt] packs of empty data, 28 bytes, is such a buffer. *)
Theorem key_and_length_guards (plaintext : Data) (encrypted key : list byte)
    (aad : option Data) (e : Entropy) :
  (length key ≠ 32 →
   CryptoModule.encrypt plaintext key aad e =
     (Err (CTypeError "Key must be a 32-byte Buffer."), e) ∧
   CryptoModule.decrypt encrypted key aad e =
     (Err (CTypeError "Key must be a 32-byte Buffer."), e)) ∧
  (length key = 32 → length encrypted < 29 →
   CryptoModule.decrypt encrypted key aad e =
     (Err (CTypeError "Encrypted payload is too short or not a Buffer."),
      e)) ∧
  (length key = 32 → CryptoModule.to_buffer plaintext = [] →
   ∃ sealed,
     fst (CryptoModule.encrypt plaintext key aad e) = Ok sealed ∧
     length (CryptoModule.encrypted sealed) = 28 ∧
     CryptoModule.decrypt (CryptoModule.encrypted sealed) key aad e =
       (Err (CTypeError "Encrypted payload is too short or not a Buffer."),
        e)).
Proof.
  assert (∀ enc, length key = 32 → length enc < 29 →
    CryptoModule.decrypt enc key aad e =
      (Err (CTypeError "Encrypted payload is too short or not a Buffer."),
       e)) as Hshort.
  { intros enc Hkey Hlen. unfold CryptoModule.decrypt. node_consts.
    rewrite Hkey. cbn [Nat.eqb negb].
    by rewrite (proj2 (Nat.ltb_lt _ _)) by lia. }
  split; [|split].
  - intros Hkey. unfold CryptoModule.encrypt, CryptoModule.decrypt.
    node_consts.
    by rewrite (proj2 (Nat.eqb_neq _ _)) by done.
  - apply Hshort.
  - intros Hkey Hdata. rewrite encrypt_run by done. cbn zeta.
    eexists. split; [reflexivity|].
    cbn [CryptoModule.encrypted].
    assert (length (draw 12 e ++
              snd (aes_256_gcm_encrypt key (draw 12 e)
                     (CryptoModule.aad_bytes aad)
                     (CryptoModule.to_buffer plaintext)) ++
              fst (aes_256_gcm_encrypt key (draw 12 e)
                     (CryptoModule.aad_bytes aad)
                     (CryptoModule.to_buffer plaintext))) = 28) as Hlen.
    { rewrite !length_app, length_draw, gcm_tag_length,
        gcm_ciphertext_length, Hdata. reflexivity. }
    split; [exact Hlen|]. apply Hshort; [done|lia].
Qed.


Lemma node_decrypt_entropy encrypted key aad e :
  snd (CryptoModule.decrypt encrypted key aad e) = e.
Proof.
  unfold CryptoModule.decrypt.
  destruct (negb _); [done|]. destruct (_ <? _)%nat; [done|].
  by destruct (aes_256_gcm_decrypt _ _ _ _ _).
Qed.

(** X10.  Decryption never draws a random byte, whatever it is given and
    whether it returns or throws: the random source after [decrypt] and
    [decryptWithPassword] of the Node module, and after [fromBase64] and
    [decryptWithPassword] of the browser module, is the one before. *)
Theorem decryption_draws_nothing (bytes key : list byte) (text : string)
    (aad : option Data) (password : string) (e : Entropy) :
  snd (CryptoModule.decrypt bytes key aad e) = e ∧
  snd (CryptoModule.decryptWithPassword bytes password e) = e ∧
  snd (CryptoBrowser.fromBase64 text e) = e ∧
  snd (CryptoBrowser.decryptWithPassword text password e) = e.
Proof.
  split; [apply node_decrypt_entropy|]. split; [|split].
  - unfold CryptoModule.decryptWithPassword.
    destruct (_ <? _)%nat; [done|].
    unfold cbind at 1, CryptoModule.deriveKey.
    destruct password as [|c password]; [done|].
    unfold cbind at 2, cret at 1 2. unfold cbind.
    pose proof (node_decrypt_entropy
      (drop CryptoModule.SALT_LENGTH bytes)
      (CryptoModule.key
         {| CryptoModule.key :=
              pbkdf2 (String c password)
                (take CryptoModule.SALT_LENGTH bytes)
                CryptoModule.PBKDF2_ITERATIONS CryptoModule.KEY_LENGTH
                CryptoModule.PBKDF2_DIGEST;
            CryptoModule.salt := take CryptoModule.SALT_LENGTH bytes;
            CryptoModule.iterations := CryptoModule.PBKDF2_ITERATIONS |})
      None e) as Hdec.
    destruct (CryptoModule.decrypt _ _ _ _) as [[plain|err] e1];
      cbn in Hdec |- *; by subst.
  - unfold CryptoBrowser.fromBase64. by destruct (Base64.atob text).
  - unfold CryptoBrowser.decryptWithPassword, cbind at 1.
    unfold CryptoBrowser.fromBase64.
    destruct (Base64.atob text) as [bin|]; [|done]. unfold cret at 1.
    destruct (_ <? _)%nat; [done|].
    unfold cbind, CryptoBrowser.deriveKey, cret. unfold cbind.
    by destruct (CryptoBrowser.subtle_decrypt _ _ _).
Qed.

(** X11.  Each password encryption takes its salt and its nonce fresh from
    the random source: it draws 44 bytes, which open the payload, and a
    second encryption draws the 44 bytes after those of the first, in the
    Node module and in the browser module alike. *)
Theorem successive_encryptions_draw_apart (p1 p2 password : string)
    (e : Entropy) :
  password ≠ "" →
  (∃ b1 b2,
     CryptoModule.encryptWithPassword p1 password e =
       (Ok b1, advance 44 e) ∧
     CryptoModule.encryptWithPassword p2 password (advance 44 e) =
       (Ok b2, advance 88 e) ∧
     take 44 b1 = draw 44 e ∧ take 44 b2 = draw 44 (advance 44 e) ∧
     length b1 = 60 + length (utf8_encode p1)) ∧
  (∃ t1 t2 b1 b2,
     CryptoBrowser.encryptWithPassword p1 password e =
       (Ok t1, advance 44 e) ∧
     CryptoBrowser.encryptWithPassword p2 password (advance 44 e) =
       (Ok t2, advance 88 e) ∧
     (∀ e', CryptoBrowser.fromBase64 t1 e' = (Ok b1, e')) ∧
     (∀ e', CryptoBrowser.fromBase64 t2 e' = (Ok b2, e')) ∧
     take 44 b1 = draw 44 e ∧ take 44 b2 = draw 44 (advance 44 e) ∧
     length b1 = 60 + length (utf8_encode p1)).
Proof.
  intros Hpw.
  assert (∀ e0 rest, take 44 (draw 32 e0 ++ draw 12 (advance 32 e0) ++ rest)
                     = draw 44 e0) as Htake.
  { intros e0 rest. rewrite app_assoc, draw_app.
    by rewrite take_app_length' by (by rewrite length_draw). }
  assert (∀ p e0, ∃ b,
            CryptoModule.encryptWithPassword p password e0 =
              (Ok b, advance 44 e0) ∧
            take 44 b = draw 44 e0 ∧
            length b = 60 + length (utf8_encode p)) as Hnode.
  { intros p e0. rewrite node_envelope by done. cbn zeta.
    rewrite advance_advance. eexists. split; [reflexivity|].
    rewrite Htake. split; [done|].
    rewrite !length_app, !length_draw, gcm_tag_length, gcm_ciphertext_length.
    lia. }
  assert (∀ p e0, ∃ t b,
            CryptoBrowser.encryptWithPassword p password e0 =
              (Ok t, advance 44 e0) ∧
            (∀ e', CryptoBrowser.fromBase64 t e' = (Ok b, e')) ∧
            take 44 b = draw 44 e0 ∧
            length b = 60 + length (utf8_encode p)) as Hbrowser.
  { intros p e0. rewrite browser_envelope. cbn zeta.
    rewrite advance_advance. do 2 eexists. split; [reflexivity|].
    split; [intros e'; apply fromBase64_toBase64|].
    rewrite Htake. split; [done|].
    rewrite !length_app, !length_draw, gcm_tag_length, gcm_ciphertext_length.
    lia. }
  split.
  - destruct (Hnode p1 e) as (b1 & Hr1 & Ht1 & Hl1).
    destruct (Hnode p2 (advance 44 e)) as (b2 & Hr2 & Ht2 & _).
    rewrite advance_advance in Hr2. by exists b1, b2.
  - destruct (Hbrowser p1 e) as (t1 & b1 & Hr1 & Hf1 & Ht1 & Hl1).
    destruct (Hbrowser p2 (advance 44 e)) as (t2 & b2 & Hr2 & Hf2 & Ht2 & _).
    rewrite advance_advance in Hr2. by exists t1, t2, b1, b2.
Qed.

Lemma length_btoa_bounded (n : nat) :
  ∀ bin, (String.length bin ≤ n)%nat →
         String.length (Base64.btoa bin) = 4 * ((String.length bin + 2) / 3).
Proof.
  induction n as [n IH] using lt_wf_ind. intros bin Hlen.
  destruct bin as [|a [|b [|c rest]]]; [reflexivity..|].
  cbn [Base64.btoa String.length] in Hlen |- *.
  rewrite (IH (String.length rest)) by lia.
  replace (S (S (S (String.length rest))) + 2)
    with (1 * 3 + (String.length rest + 2)) by lia.
  rewrite Nat.div_add_l by done. lia.
Qed.

Lemma length_string_of_list_byte l :
  String.length (String.string_of_list_byte l) = length l.
Proof.
  unfold String.string_of_list_byte.
  induction l as [|b l IH]; [done|].
  cbn [map String.string_of_list_ascii String.length length]. by rewrite IH.
Qed.

(** X12.  [toBase64] of the browser module loses nothing: [fromBase64]
    gives back the bytes, so two byte arrays with the same text are the
    same; the text has four characters for every three bytes or part of
    three, all of them letters, digits, [+], [/] or [=]. *)
Theorem toBase64_faithful (a b : list byte) (e : Entropy) :
  CryptoBrowser.fromBase64 (CryptoBrowser.toBase64 a) e = (Ok a, e) ∧
  (CryptoBrowser.toBase64 a = CryptoBrowser.toBase64 b → a = b) ∧
  String.length (CryptoBrowser.toBase64 a) = 4 * ((length a + 2) / 3) ∧
  Base64.text_safe (CryptoBrowser.toBase64 a) = true.
Proof.
  split; [apply fromBase64_toBase64|]. split; [|split].
  - intros Heq.
    pose proof (fromBase64_toBase64 a e) as Ha.
    pose proof (fromBase64_toBase64 b e) as Hb.
    rewrite Heq in Ha. rewrite Ha in Hb. by injection Hb.
  - unfold CryptoBrowser.toBase64.
    rewrite (length_btoa_bounded _ _ (le_n _)).
    by rewrite length_string_of_list_byte.
  - apply toBase64_text_safe.
Qed.

(** X13.  [destroy] of a session key manager that holds a key: the getter
    [key] throws from then on; the buffer of the key is overwritten with
    zeros in place, so that a reference taken from the getter before reads
    zeros, as many as the key had bytes; no other buffer changes; the
    creation time stays; and a second [destroy] does nothing. *)
Theorem destroy_wipes_key (this : SessionKeyManager.SessionKeyManager)
    (h : list (list byte)) (r : nat) (k : list byte) :
  SessionKeyManager.key this = Ok r → h !! r = Some k →
  let this' := fst (SessionKeyManager.destroy this h) in
  let h' := snd (SessionKeyManager.destroy this h) in
  SessionKeyManager.key this' =
    Err (CError "Session key has been destroyed.") ∧
  SessionKeyManager.read h' r = replicate (length k) x00 ∧
  (∀ r', r' ≠ r → h' !! r' = h !! r') ∧
  length h' = length h ∧
  SessionKeyManager.createdAt this' = SessionKeyManager.createdAt this ∧
  SessionKeyManager.destroy this' h' = (this', h').
Proof.
  unfold SessionKeyManager.key, SessionKeyManager.destroy.
  destruct (SessionKeyManager.priv_key this) as [r0|] eqn:Hkey; [|done].
  intros [= ->] Hk. cbn [fst snd SessionKeyManager.priv_key].
  split; [done|]. unfold SessionKeyManager.read, SessionKeyManager.fill.
  split; [by rewrite list_lookup_alter_eq, Hk|].
  split; [intros r' Hne; by rewrite list_lookup_alter_ne|].
  split; [apply length_alter|]. done.
Qed.

(** X14.  The life of a session key: [new SessionKeyManager()] draws 32
    random bytes into a buffer of its own, which the getter [key] gives,
    and leaves the buffers there were; data that is not empty, encrypted
    under that key, decrypts under it to itself; after [destroy] the getter
    throws and the buffer holds 32 zeros. *)
Theorem session_key_flow (now : N) (h : list (list byte))
    (e : Entropy) (plaintext : Data) (aad : option Data) :
  CryptoModule.to_buffer plaintext ≠ [] →
  ∃ this h1 r sealed,
    SessionKeyManager.new now h e = (Ok (this, h1), advance 32 e) ∧
    SessionKeyManager.key this = Ok r ∧
    SessionKeyManager.createdAt this = now ∧
    h !! r = None ∧
    SessionKeyManager.read h1 r = draw 32 e ∧
    (∀ r', r' ≠ r → h1 !! r' = h !! r') ∧
    CryptoModule.encrypt plaintext (SessionKeyManager.read h1 r) aad
      (advance 32 e) = (Ok sealed, advance 12 (advance 32 e)) ∧
    (∀ e', CryptoModule.decrypt (CryptoModule.encrypted sealed)
             (SessionKeyManager.read h1 r) aad e' =
             (Ok (CryptoModule.to_buffer plaintext), e')) ∧
    SessionKeyManager.key (fst (SessionKeyManager.destroy this h1)) =
      Err (CError "Session key has been destroyed.") ∧
    SessionKeyManager.read (snd (SessionKeyManager.destroy this h1)) r =
      replicate 32 x00.
Proof.
  intros Hdata.
  assert (SessionKeyManager.read (h ++ [draw 32 e]) (length h) = draw 32 e)
    as Hread.
  { unfold SessionKeyManager.read.
      by rewrite lookup_app_r, Nat.sub_diag by lia. }
  eexists {| SessionKeyManager.priv_key := Some (length h);
             SessionKeyManager.priv_createdAt := now |},
          (h ++ [draw 32 e]), (length h), _.
  split; [reflexivity|]. split; [reflexivity|]. split; [reflexivity|].
  split; [by apply lookup_ge_None_2|].
  split; [exact Hread|]. split.
  { intros r' Hne. destruct (decide (r' < length h)) as [Hlt|Hge].
    - by rewrite lookup_app_l.
    - rewrite !lookup_ge_None_2; [done|lia|].
      rewrite length_app. cbn. lia. }
  rewrite Hread. split.
  { apply encrypt_run. apply length_draw. }
  split.
  { intros e'. cbn [CryptoModule.encrypted].
    apply decrypt_sealed; [apply length_draw|done]. }
  unfold SessionKeyManager.destroy, SessionKeyManager.key.
  cbn [fst snd SessionKeyManager.priv_key]. split; [done|].
  unfold SessionKeyManager.read, SessionKeyManager.fill.
  rewrite list_lookup_alter_eq, lookup_app_r, Nat.sub_diag by lia.
  cbn [lookup list_lookup fmap option_fmap option_map default id].
  by rewrite length_draw.
Qed.

End CryptoPaths.

(** ** The crypto paths at concrete inputs *)

(** X7, at an input: four bytes under a key of 32, with associated
    data. *)
Lemma encrypt_decrypt_round_trip_witness :
  ∃ sealed,
    fst (CryptoModule.encrypt (P := SamplePlatform.sample)
           (Buf [x00; xff; x42; x13]) (replicate 32 x07)
           (Some (Str "user:42")) SamplePlatform.counting) = Ok sealed ∧
    length (CryptoModule.encrypted sealed) = 32 ∧
    fst (CryptoModule.decrypt (CryptoModule.encrypted sealed)
           (replicate 32 x07) (Some (Str "user:42"))
           SamplePlatform.counting) = Ok [x00; xff; x42; x13].
Proof.
  destruct (@encrypt_decrypt_round_trip SamplePlatform.sample sample_spec
              (Buf [x00; xff; x42; x13]) (replicate 32 x07)
              (Some (Str "user:42")) SamplePlatform.counting)
    as (sealed & Hrun & _ & Htag & (ct & Hpacked & Hct) & Hdec);
    [reflexivity|discriminate|].
  exists sealed. rewrite Hrun, Hdec. split; [done|]. split; [|done].
  rewrite Hpacked, !length_app, Htag, Hct.
  apply (f_equal fst) in Hrun. cbn in Hrun. injection Hrun as <-.
  reflexivity.
Defined.

(** X8, at an input: a key of 16 bytes, and the empty text under a key of
    32. *)
Lemma key_and_length_guards_witness :
  fst (CryptoModule.encrypt (P := SamplePlatform.sample) (Str "")
         (replicate 16 x07) None SamplePlatform.counting) =
    Err (CTypeError "Key must be a 32-byte Buffer.") ∧
  ∃ sealed,
    fst (CryptoModule.encrypt (P := SamplePlatform.sample) (Str "")
           (replicate 32 x07) None SamplePlatform.counting) = Ok sealed ∧
    fst (CryptoModule.decrypt (CryptoModule.encrypted sealed)
           (replicate 32 x07) None SamplePlatform.counting) =
      Err (CTypeError "Encrypted payload is too short or not a Buffer.").
Proof.
  destruct (@key_and_length_guards SamplePlatform.sample sample_spec
              (Str "") [] (replicate 16 x07) None SamplePlatform.counting)
    as (Hkey & _ & _).
  destruct Hkey as [Henc _]; [cbn; lia|].
  destruct (@key_and_length_guards SamplePlatform.sample sample_spec
              (Str "") [] (replicate 32 x07) None SamplePlatform.counting)
    as (_ & _ & Hempty).
  destruct Hempty as (sealed & Hrun & _ & Hdec); [reflexivity..|].
  split; [by rewrite Henc|].
  exists sealed. by rewrite Hrun, Hdec.
Defined.


(** X11, at an input: two messages under one password. *)
Lemma successive_encryptions_draw_apart_witness :
  ∃ b1 b2,
    CryptoModule.encryptWithPassword (P := SamplePlatform.sample)
      "hola" "clave" SamplePlatform.counting =
      (Ok b1, advance 44 SamplePlatform.counting) ∧
    CryptoModule.encryptWithPassword (P := SamplePlatform.sample)
      "hola" "clave" (advance 44 SamplePlatform.counting) =
      (Ok b2, advance 88 SamplePlatform.counting) ∧
    take 44 b1 ≠ take 44 b2.
Proof.
  destruct (@successive_encryptions_draw_apart SamplePlatform.sample
              sample_spec "hola" "hola" "clave" SamplePlatform.counting)
    as [(b1 & b2 & Hr1 & Hr2 & Ht1 & Ht2 & _) _]; [discriminate|].
  exists b1, b2. split; [done|]. split; [done|].
  rewrite Ht1, Ht2. vm_compute. discriminate.
Defined.

(** X13, at an input: a manager whose key is the second of two buffers. *)
Lemma destroy_wipes_key_witness :
  let this := {| SessionKeyManager.priv_key := Some 1;
                 SessionKeyManager.priv_createdAt := 5 |} in
  let h := [[x01]; [x0a; x0b; x0c]] in
  SessionKeyManager.key (fst (SessionKeyManager.destroy this h)) =
    Err (CError "Session key has been destroyed.") ∧
  snd (SessionKeyManager.destroy this h) = [[x01]; [x00; x00; x00]].
Proof.
  intros this h.
  destruct (destroy_wipes_key this h 1 [x0a; x0b; x0c])
    as (Hkey & _); [reflexivity..|].
  split; [exact Hkey|reflexivity].
Defined.

(** X14, at an input: a session that encrypts one byte. *)
Lemma session_key_flow_witness :
  ∃ this h1 r,
    fst (SessionKeyManager.new 5 [] SamplePlatform.counting) =
      Ok (this, h1) ∧
    SessionKeyManager.key this = Ok r ∧
    length (SessionKeyManager.read h1 r) = 32 ∧
    SessionKeyManager.read (snd (SessionKeyManager.destroy this h1)) r =
      replicate 32 x00.
Proof.
  destruct (@session_key_flow SamplePlatform.sample sample_spec 5%N []
              SamplePlatform.counting (Buf [x01]) None)
    as (this & h1 & r & sealed & Hnew & Hkey & _ & _ & Hread & _ & _ & _ &
        _ & Hzero); [discriminate|].
  exists this, h1, r. rewrite Hnew, Hread.
  split; [done|]. split; [done|]. split; [reflexivity|done].
Defined.


(** * Sending, end to end *)

Section SendFacts.
Context {P : Platform} {spec : PlatformSpec P}.

Lemma truthy_of_nonempty s : s ≠ "" → Relay.truthy (Some s) = Some s.
Proof. by destruct s. Qed.

Lemma toBase64_nonempty bytes :
  bytes ≠ [] → CryptoBrowser.toBase64 bytes ≠ "".
Proof.
  intros Hbytes Hnil.
  assert (String.length (CryptoBrowser.toBase64 bytes) = 0%nat) as Hlen
    by by rewrite Hnil.
  unfold CryptoBrowser.toBase64 in Hlen.
  rewrite (length_btoa_bounded _ _ (le_n _)) in Hlen.
  rewrite length_string_of_list_byte in Hlen.
  destruct bytes as [|x bytes]; [done|]. cbn [length] in Hlen.
  assert (1 ≤ (S (length bytes) + 2) / 3)%nat; [|lia].
  apply Nat.div_le_lower_bound; lia.
Qed.

(** What the browser's [encryptWithPassword] gives: a text that is not
    empty, after 44 random bytes. *)
Lemma browser_encrypt_ok text password e :
  ∃ content,
    CryptoBrowser.encryptWithPassword text password e =
      (Ok content, advance 12 (advance 32 e)) ∧
    content ≠ "".
Proof.
  rewrite browser_envelope. cbn zeta. eexists. split; [reflexivity|].
  apply toBase64_nonempty. intros Hnil.
  apply (f_equal length) in Hnil. rewrite length_app, length_draw in Hnil.
  cbn in Hnil. lia.
Qed.




(** X16.  A text that cannot go out, because the socket is not open, is
    lost all the same: both clients have emptied the input and encrypted
    the text, drawing 44 random bytes, before they look at the socket, and
    neither sends a frame.  The first client then shows a warning and not
    the text; the client with media shows its warning and, after it, the
    text as a message that was sent. *)
Theorem unsent_text_is_dropped (text recipientInput password u to : string)
    (s : GhostChat.State) :
  text ≠ "" →
  Relay.truthy (GhostChat.sessionPassword s) = Some password →
  Relay.truthy (GhostChat.userId s) = Some u →
  GhostChatSend.recipient recipientInput s = Some to →
  GhostChat.ws_is_open s = false →
  let first := GhostChatSend.handleSend text recipientInput s in
  let media := GhostChatMediaSend.handleSend text recipientInput s in
  snd first =
    [GhostChatSend.clear_input;
     GhostChatSend.addSystemMessage "⚠ Sin conexión — mensaje no enviado"] ∧
  GhostChatSend.sent_frames (snd first) = [] ∧
  snd media =
    [GhostChatMediaSend.clear_input;
     GhostChatMediaSend.addSystemMessage "⚠ Sin conexion";
     GhostChatMediaSend.addMessage text "text" GhostChat.sent None] ∧
  GhostChatMediaSend.sent_frames (snd media) = [] ∧
  fst first = fst media ∧
  GhostChat.entropy (fst first) = advance 44 (GhostChat.entropy s) ∧
  GhostChat.recipientId (fst first) = Some to.
Proof.
  intros Htext Hpw Hu Hto Hclosed. cbn zeta.
  destruct (browser_encrypt_ok text password (GhostChat.entropy s))
    as (content & Hrun & _).
  apply truthy_Some in Hpw as Hpw'.
  assert (GhostChatSend.handleSend text recipientInput s =
            (GhostChatSend.set_entropy
               (advance 12 (advance 32 (GhostChat.entropy s)))
               (GhostChatSend.set_recipientId (Some to) s),
             [GhostChatSend.clear_input;
              GhostChatSend.addSystemMessage
                "⚠ Sin conexión — mensaje no enviado"])) as ->.
  { unfold GhostChatSend.handleSend.
    rewrite (truthy_of_nonempty text Htext), Hpw, Hu, Hto. cbn zeta.
    change (GhostChat.entropy (GhostChatSend.set_recipientId (Some to) s))
      with (GhostChat.entropy s).
    rewrite Hrun. cbn [fst snd].
    change (GhostChat.ws_is_open
              (GhostChatSend.set_entropy
                 (advance 12 (advance 32 (GhostChat.entropy s)))
                 (GhostChatSend.set_recipientId (Some to) s)))
      with (GhostChat.ws_is_open s).
    by rewrite Hclosed. }
  assert (GhostChatMediaSend.handleSend text recipientInput s =
            (GhostChatSend.set_entropy
               (advance 12 (advance 32 (GhostChat.entropy s)))
               (GhostChatSend.set_recipientId (Some to) s),
             [GhostChatMediaSend.clear_input;
              GhostChatMediaSend.addSystemMessage "⚠ Sin conexion";
              GhostChatMediaSend.addMessage text "text" GhostChat.sent
                None])) as ->.
  { unfold GhostChatMediaSend.handleSend, GhostChatMediaSend.getRecipient.
    rewrite (truthy_of_nonempty text Htext), Hpw, Hu, Hto. cbn zeta.
    unfold GhostChatMediaSend.encrypt_and_send,
      GhostChatMediaSend.sendToServer.
    change (GhostChat.entropy (GhostChatSend.set_recipientId (Some to) s))
      with (GhostChat.entropy s).
    change (GhostChat.sessionPassword
              (GhostChatSend.set_recipientId (Some to) s))
      with (GhostChat.sessionPassword s).
    rewrite Hpw'. cbn [from_option id]. rewrite Hrun. cbn [fst snd].
    change (GhostChat.ws_is_open
              (GhostChatSend.set_entropy
                 (advance 12 (advance 32 (GhostChat.entropy s)))
                 (GhostChatSend.set_recipientId (Some to) s)))
      with (GhostChat.ws_is_open s).
    by rewrite Hclosed. }
  cbn [fst snd]. do 5 (split; [done|]).
  split; [|done].
  unfold GhostChatSend.set_entropy. cbn [GhostChat.entropy].
  apply advance_advance.
Qed.


(** X18.  A photo over 5 MB, a photo the reader fails on, and a photo
    without a recipient are not sent: [handlePhotoSelected] writes no frame,
    renders no message and draws no random byte, and of a photo over 5 MB
    it leaves the recipient as it was as well. *)
Theorem rejected_photo_sends_nothing (file : GhostChatMediaSend.File)
    (recipientInput : string) (s : GhostChat.State) :
  (GhostChatMediaSend.MAX_MEDIA_BYTES < GhostChatMediaSend.size file)%N ∨
  GhostChatMediaSend.dataURL file = None ∨
  GhostChatSend.recipient recipientInput s = None →
  let r := GhostChatMediaSend.handlePhotoSelected (Some file) recipientInput
             s in
  GhostChatMediaSend.sent_frames (snd r) = [] ∧
  (∀ content mediaType type chatMsg,
     GhostChatMediaSend.addMessage content mediaType type chatMsg ∉ snd r) ∧
  GhostChat.entropy (fst r) = GhostChat.entropy s ∧
  ((GhostChatMediaSend.MAX_MEDIA_BYTES < GhostChatMediaSend.size file)%N →
   r = (s, [GhostChatMediaSend.clear_file_input;
            GhostChatMediaSend.addSystemMessage
              "⚠ Archivo muy grande (max 5MB)"])).
Proof.
  intros Hrejected. cbn zeta.
  unfold GhostChatMediaSend.handlePhotoSelected,
    GhostChatMediaSend.getRecipient.
  destruct (GhostChatMediaSend.MAX_MEDIA_BYTES <? _)%N eqn:Hsize.
  { cbn. split; [done|]. split; [|done].
    intros content mediaType type chatMsg Hin.
    by repeat (apply elem_of_cons in Hin as [?|Hin]; [done|]);
      apply elem_of_nil in Hin. }
  apply N.ltb_ge in Hsize.
  destruct (GhostChatSend.recipient recipientInput s) as [to|] eqn:Hto.
  - destruct (GhostChatMediaSend.dataURL file) as [url|] eqn:Hurl.
    { destruct Hrejected as [?|[?|?]]; [lia|done|done]. }
    cbn. split; [done|]. split; [|split; [done|lia]].
    intros content mediaType type chatMsg Hin.
    by repeat (apply elem_of_cons in Hin as [?|Hin]; [done|]);
      apply elem_of_nil in Hin.
  - cbn. split; [done|]. split; [|split; [done|lia]].
    intros content mediaType type chatMsg Hin.
    by repeat (apply elem_of_cons in Hin as [?|Hin]; [done|]);
      apply elem_of_nil in Hin.
Qed.

End SendFacts.

(** * The session of the client *)

Section SessionFacts.
Context {P : Platform}.
Import GhostChat.

(** What a frame of the server may make the client do. *)
Lemma handleIncomingMessage_harmless chatMsg s :
  Forall (λ e, match e with
               | ws_send _ => ws s = Some Relay.OPEN
               | addMessage _ _ _ | addSystemMessage _ => True
               | _ => False
               end) (snd (handleIncomingMessage chatMsg s)).
Proof.
  unfold handleIncomingMessage, andThen, effect, skip, ws_is_open.
  destruct (ws s) as [[]|]; destruct (bool_decide (_ = received));
    cbn; repeat constructor.
Qed.

Lemma on_message_harmless frame s :
  Forall (λ e, match e with
               | ws_send _ => ws s = Some Relay.OPEN
               | addMessage _ _ _ | addSystemMessage _ => True
               | _ => False
               end) (snd (on_message frame s)).
Proof.
  assert (∀ messages,
    Forall (λ e, match e with
                 | ws_send _ => ws s = Some Relay.OPEN
                 | addMessage _ _ _ | addSystemMessage _ => True
                 | _ => False
                 end) (snd (handle_each messages s))) as Heach.
  { induction messages as [|m messages IH]; [constructor|].
    cbn [handle_each]. unfold andThen. cbn [snd].
    destruct (handleIncomingMessage_quiet m s) as [-> _].
    apply Forall_app. split; [apply handleIncomingMessage_harmless|done]. }
  destruct frame as [[]|]; cbn [on_message]; try by repeat constructor.
  - destruct messages as [|m messages]; [constructor|].
    unfold andThen, effect. cbn [fst snd].
    constructor; [done|]. apply Heach.
  - apply handleIncomingMessage_harmless.
Qed.

(** X19.  Once [destroy] has run, and until a password is submitted again,
    the client sends nothing and opens no socket, whatever happens: a
    socket that opens or closes late, a frame that arrives late, a timer
    that fires.  It holds no socket, no password and no identity. *)
Theorem destroyed_session_stays_silent (s : State) (events : list Event) :
  Forall (λ e, ∀ alias pw to constructed,
               e ≠ PasswordSubmit alias pw to constructed) events →
  let r := run events (fst (destroy s)) in
  sent_frames (snd r) = [] ∧ (new_WebSocket ∉ snd r) ∧
  ws (fst r) = None ∧ sessionPassword (fst r) = None ∧
  userId (fst r) = None.
Proof.
  intros Hevents. cbn zeta.
  assert (ws (fst (destroy s)) = None ∧
          sessionPassword (fst (destroy s)) = None ∧
          userId (fst (destroy s)) = None) as Hinv by done.
  revert Hinv. generalize (fst (destroy s)) as s0.
  induction Hevents as [|e events He _ IH]; intros s0 (Hws & Hpw & Hu).
  { cbn. split; [done|]. split; [apply not_elem_of_nil|done]. }
  cbn [run]. unfold andThen. cbn [fst snd].
  assert (sent_frames (snd (handle e s0)) = [] ∧
          (new_WebSocket ∉ snd (handle e s0)) ∧
          ws (fst (handle e s0)) = None ∧
          sessionPassword (fst (handle e s0)) = None ∧
          userId (fst (handle e s0)) = None) as (Hsent & Hnew & Hinv).
  { destruct e as [alias pw to c|c| | | |frame|]; cbn [handle].
    - by destruct (He alias pw to c).
    - unfold reconnectTimer_fired. cbn. rewrite Hpw. cbn.
      split; [done|]. split; [apply not_elem_of_nil|done].
    - unfold andThen, socket_becomes, modify, on_open, andThen, effect.
      cbn. rewrite Hws. cbn. rewrite Hws. cbn.
      split; [done|]. split; [|done].
      intros Hin. apply elem_of_cons in Hin as [?|Hin]; [done|].
      by apply elem_of_nil in Hin.
    - unfold andThen, socket_becomes, modify, on_close, andThen, effect,
        scheduleReconnect.
      cbn. rewrite Hws. cbn.
      destruct (reconnectTimer s0); cbn; (split; [done|]);
        (split; [|done]); intros Hin;
        by repeat (apply elem_of_cons in Hin as [?|Hin]; [done|]);
          apply elem_of_nil in Hin.
    - unfold on_error, andThen, modify, effect. cbn.
      split; [done|]. split; [|done].
      intros Hin. apply elem_of_cons in Hin as [?|Hin]; [done|].
      by apply elem_of_nil in Hin.
    - destruct (on_message_quiet frame s0) as [-> _].
      pose proof (on_message_harmless frame s0) as Hall.
      rewrite Hws in Hall. split; [|split; [|done]].
      + induction Hall as [|x l Hx _ IHl]; [done|].
        unfold sent_frames in *. cbn [omap]. by destruct x.
      + intros Hin. rewrite Forall_forall in Hall.
        by apply Hall in Hin.
    - unfold destroy. cbn. rewrite Hws.
      split; [by destruct (reconnectTimer s0)|]. split; [|done].
      intros Hin. destruct (reconnectTimer s0); cbn in Hin.
      + apply elem_of_cons in Hin as [?|Hin]; [done|].
        by apply elem_of_nil in Hin.
      + by apply elem_of_nil in Hin. }
  destruct (IH (fst (handle e s0)) Hinv) as (Hsent' & Hnew' & Hinv').
  split; [|split; [|done]].
  - unfold sent_frames in *. by rewrite omap_app, Hsent, Hsent'.
  - intros [?|?]%elem_of_app; done.
Qed.

(** X20.  The client makes a socket only when it holds none that is open
    or connecting, and only on a password submit or when the reconnect
    timer fires; the socket it makes becomes its socket, connecting. *)
Theorem socket_made_only_when_none_live (e : Event) (s : State) :
  new_WebSocket ∈ snd (handle e s) →
  ws_is_live s = false ∧
  ws (fst (handle e s)) = Some Relay.CONNECTING ∧
  ((∃ alias pw to, e = PasswordSubmit alias pw to true) ∨
   e = TimerFired true).
Proof.
  assert (∀ c s0, new_WebSocket ∈ snd (connectWebSocket c s0) →
                  ws_is_live s0 = false ∧ c = true ∧
                  ws (fst (connectWebSocket c s0)) = Some Relay.CONNECTING)
    as Hconnect.
  { intros c s0. unfold connectWebSocket.
    destruct (ws_is_live s0); [by intros []%elem_of_nil|].
    destruct c; [done|].
    unfold andThen, effect, scheduleReconnect. cbn.
    destruct (reconnectTimer s0); cbn; intros Hin;
      by repeat (apply elem_of_cons in Hin as [?|Hin]; [done|]);
        apply elem_of_nil in Hin. }
  destruct e as [alias pw to c|c| | | |frame|]; cbn [handle].
  - unfold handlePasswordSubmit.
    destruct alias as [|x alias]; [by intros []%elem_of_nil|].
    destruct pw as [|y pw]; [by intros []%elem_of_nil|].
    unfold andThen, effect. cbn [fst snd].
    intros [Hin|Hin]%elem_of_app.
    + apply Hconnect in Hin as (Hlive & -> & Hws). eauto 10.
    + apply elem_of_cons in Hin as [?|Hin]; [done|].
      by apply elem_of_nil in Hin.
  - unfold reconnectTimer_fired. cbn [sessionPassword userId set_reconnectTimer].
    destruct (sessionPassword s) as [[|x pw]|];
      [by intros []%elem_of_nil| |by intros []%elem_of_nil].
    destruct (userId s) as [[|y u]|]; [by intros []%elem_of_nil|
                                      |by intros []%elem_of_nil].
    intros Hin. apply Hconnect in Hin as (Hlive & -> & Hws). eauto.
  - unfold andThen, socket_becomes, modify, on_open, andThen, effect.
    cbn. destruct (ws s) eqn:Hws; cbn; rewrite ?Hws; cbn; intros Hin;
      by repeat (apply elem_of_cons in Hin as [?|Hin]; [done|]);
        apply elem_of_nil in Hin.
  - unfold andThen, socket_becomes, modify, on_close, andThen, effect,
      scheduleReconnect.
    cbn. destruct (ws s) eqn:Hws; cbn; destruct (reconnectTimer s); cbn;
      intros Hin;
      by repeat (apply elem_of_cons in Hin as [?|Hin]; [done|]);
        apply elem_of_nil in Hin.
  - unfold on_error, andThen, modify, effect. cbn. intros Hin.
    by repeat (apply elem_of_cons in Hin as [?|Hin]; [done|]);
      apply elem_of_nil in Hin.
  - intros Hin. pose proof (on_message_harmless frame s) as Hall.
    rewrite Forall_forall in Hall. by apply Hall in Hin.
  - unfold destroy. cbn.
    destruct (reconnectTimer s); destruct (ws s); cbn; intros Hin;
      by repeat (apply elem_of_cons in Hin as [?|Hin]; [done|]);
        apply elem_of_nil in Hin.
Qed.

(** X21.  A frame of the server changes nothing in the session of the
    client, and all the client does on it is render and, at most, answer
    [seen]: every frame it sends is the [seen] of a message the frame
    carried, from somebody else, and is sent on an open socket. *)
Theorem frames_only_trigger_seen (frame : option Relay.ServerFrame)
    (s : State) :
  fst (on_message frame s) = s ∧
  Forall (λ e, match e with
               | ws_send f =>
                   ∃ m, f = seen (Relay.cm_id m) ∧ carried m frame ∧
                        Some (Relay.cm_from m) ≠ userId s ∧
                        ws s = Some Relay.OPEN
               | addMessage _ _ _ | addSystemMessage _ => True
               | _ => False
               end) (snd (on_message frame s)).
Proof.
  split; [apply on_message_quiet|].
  assert (∀ m (Q : Relay.ChatMessage → Prop), Q m →
    Forall (λ e, match e with
                 | ws_send f =>
                     ∃ m', f = seen (Relay.cm_id m') ∧ Q m' ∧
                           Some (Relay.cm_from m') ≠ userId s ∧
                           ws s = Some Relay.OPEN
                 | addMessage _ _ _ | addSystemMessage _ => True
                 | _ => False
                 end) (snd (handleIncomingMessage m s))) as Hone.
  { intros m Q HQ.
    unfold handleIncomingMessage, andThen, effect, skip, ws_is_open.
    cbn [fst snd app].
    case_bool_decide as Hfrom; cbn [bool_decide andb].
    { rewrite bool_decide_eq_false_2 by done. repeat constructor. }
    rewrite bool_decide_eq_true_2 by done. cbn [andb].
    destruct (ws s) as [[]|] eqn:Hws; cbn; repeat constructor.
    by exists m. }
  destruct frame as [[]|]; cbn [on_message]; try by repeat constructor.
  - destruct messages as [|m0 messages]; [constructor|].
    unfold andThen, effect. cbn [fst snd]. constructor; [done|].
    assert (∀ l, l ⊆ m0 :: messages →
      Forall (λ e, match e with
                   | ws_send f =>
                       ∃ m', f = seen (Relay.cm_id m') ∧
                             carried m' (Some (Relay.pending_messages
                                                 (m0 :: messages) count)) ∧
                             Some (Relay.cm_from m') ≠ userId s ∧
                             ws s = Some Relay.OPEN
                   | addMessage _ _ _ | addSystemMessage _ => True
                   | _ => False
                   end) (snd (handle_each l s))) as Heach.
    { induction l as [|m l IH]; intros Hsub; [constructor|].
      cbn [handle_each]. unfold andThen. cbn [snd].
      destruct (handleIncomingMessage_quiet m s) as [-> _].
      apply Forall_app. split.
      - apply (Hone m (λ m', m' ∈ m0 :: messages)).
        apply Hsub. by left.
      - apply IH. intros x Hx. apply Hsub. by right. }
    by apply Heach.
  - by apply (Hone message (λ m', m' = message)).
Qed.

End SessionFacts.

(** * The two modes of the page *)

Section AppFacts.
Import App.

Lemma shown_after_app m l1 l2 :
  shown_after m (l1 ++ l2) = shown_after m l1 ≫= λ m', shown_after m' l2.
Proof.
  revert m. induction l1 as [|e l1 IH]; intros m; [done|].
  destruct e; cbn [app shown_after]; try apply IH;
    case_decide; [apply IH|done|apply IH|done].
Qed.

Lemma shown_after_handle e s :
  shown_after (currentMode s) (snd (handle e s)) =
    Some (currentMode (fst (handle e s))).
Proof.
  destruct e as [| |trimmed|key|]; cbn [handle]; [| done | | | done].
  - unfold logo_click, switchToGhost. cbn [currentMode].
    destruct (_ <=? _)%nat; [|done].
    destruct (currentMode s) eqn:Hmode; cbn; by rewrite ?Hmode.
  - unfold search_input, switchToGhost.
    case_decide; [|done].
    destruct (currentMode s) eqn:Hmode; cbn; by rewrite ?Hmode.
  - unfold keydown, switchToWapnation.
    case_decide; [|done].
    destruct (currentMode s) eqn:Hmode; cbn; by rewrite ?Hmode.
Qed.

(** X22.  Whatever happens on the page, the chat is shown exactly when the
    mode is [ghost]: [GhostChat.activate] is only ever called while the chat
    is hidden and [GhostChat.deactivate] while it is shown, so the calls
    alternate, and the mode after any run of events is the one the last
    call left. *)
Theorem chat_shown_as_mode_says (events : list Event) (s : State) :
  shown_after (currentMode s) (snd (run events s)) =
    Some (currentMode (fst (run events s))).
Proof.
  revert s. induction events as [|e events IH]; intros s; [done|].
  cbn [run fst snd]. rewrite shown_after_app, shown_after_handle.
  cbn [mbind option_bind]. apply IH.
Qed.

Lemma logo_click_step s :
  (logoClickCount s < 3)%nat →
  logoClickCount (fst (logo_click s)) = ((logoClickCount s + 1) mod 3)%nat ∧
  (logoClickCount (fst (logo_click s)) < 3)%nat ∧
  (currentMode (fst (logo_click s)) = ghost ↔
   currentMode s = ghost ∨ logoClickCount s = 2%nat).
Proof.
  intros Hcount. unfold logo_click, switchToGhost, LOGO_CLICK_THRESHOLD.
  destruct (logoClickCount s) as [|[|[|c]]] eqn:Hc; [..|lia];
    cbn [Nat.leb fst currentMode logoClickCount].
  - split; [done|]. split; [lia|]. split; [by left|]. by intros [?|?].
  - split; [done|]. split; [lia|]. split; [by left|]. by intros [?|?].
  - destruct (currentMode s) eqn:Hmode; cbn [fst currentMode logoClickCount];
      rewrite ?Hc; (split; [done|]); (split; [lia|]); split; auto.
Qed.

(** X23.  Clicks on the logo with no expiry of its timer between them are
    counted modulo three: the third opens the chat, and sets the count back
    to 0; the [Escape] key closes the chat, whatever the state. *)
Theorem logo_clicks_count (n : nat) (s : State) :
  (logoClickCount s < 3)%nat →
  let s' := fst (run (replicate n LogoClick) s) in
  logoClickCount s' = ((logoClickCount s + n) mod 3)%nat ∧
  (currentMode s' = ghost ↔
   currentMode s = ghost ∨ (3 ≤ logoClickCount s + n)%nat) ∧
  currentMode (fst (handle (KeyDown "Escape") s')) = wapnation.
Proof.
  intros Hcount. cbn zeta.
  assert (logoClickCount (fst (run (replicate n LogoClick) s)) =
            ((logoClickCount s + n) mod 3)%nat ∧
          (currentMode (fst (run (replicate n LogoClick) s)) = ghost ↔
           currentMode s = ghost ∨ (3 ≤ logoClickCount s + n)%nat))
    as [Hc Hm].
  { revert s Hcount. induction n as [|n IH]; intros s Hcount.
    { cbn [replicate run fst]. rewrite Nat.add_0_r, Nat.mod_small by done.
      split; [done|]. split; [tauto|]. intros [?|?]; [done|lia]. }
    cbn [replicate run fst handle].
    destruct (logo_click_step s Hcount) as (Hstep & Hlt & Hmode).
    destruct (IH (fst (logo_click s)) Hlt) as [IHc IHm].
    split.
    - rewrite IHc, Hstep, Nat.Div0.add_mod_idemp_l. f_equal. lia.
    - rewrite IHm, Hmode, Hstep.
      destruct (logoClickCount s) as [|[|[|c]]] eqn:Hcs; [..|lia];
        cbn; split; intros; try tauto; try lia;
        repeat match goal with
               | H : _ ∨ _ |- _ => destruct H
               end; try tauto; try lia; try (right; lia). }
  split; [exact Hc|]. split; [exact Hm|].
  unfold handle, keydown, switchToWapnation.
  rewrite decide_True by done. cbn [fst].
  by destruct (currentMode (fst (run (replicate n LogoClick) s))) eqn:Hmode.
Qed.

End AppFacts.


(** ** Sending and the session, at concrete inputs *)

Section SendExamples.
Import Relay Scenario RelayPaths.


(** X16, at an input: Alice types while her socket is still connecting. *)
Lemma unsent_text_is_dropped_witness :
  GhostChatSend.sent_frames
    (snd (GhostChatSend.handleSend (P := SamplePlatform.sample)
            "hola" "" Session.connecting)) = [] ∧
  snd (GhostChatMediaSend.handleSend (P := SamplePlatform.sample)
         "hola" "" Session.connecting) =
    [GhostChatMediaSend.clear_input;
     GhostChatMediaSend.addSystemMessage "⚠ Sin conexion";
     GhostChatMediaSend.addMessage "hola" "text" GhostChat.sent None].
Proof.
  destruct (@unsent_text_is_dropped SamplePlatform.sample
              "hola" "" "clave" "alice" "bob" Session.connecting)
    as (_ & Hfirst & Hmedia & _);
    [discriminate|reflexivity..|].
  split; [exact Hfirst|exact Hmedia].
Defined.


(** X18, at an input: a photo of 6 MB. *)
Lemma rejected_photo_sends_nothing_witness :
  GhostChatMediaSend.handlePhotoSelected (P := SamplePlatform.sample)
    (Some {| GhostChatMediaSend.size := 6291456;
             GhostChatMediaSend.dataURL :=
               Some "data:image/png;base64,AAAA" |})
    "" Session.connected =
    (Session.connected,
     [GhostChatMediaSend.clear_file_input;
      GhostChatMediaSend.addSystemMessage "⚠ Archivo muy grande (max 5MB)"]).
Proof.
  destruct (@rejected_photo_sends_nothing SamplePlatform.sample
              {| GhostChatMediaSend.size := 6291456;
                 GhostChatMediaSend.dataURL :=
                   Some "data:image/png;base64,AAAA" |}
              "" Session.connected)
    as (_ & _ & _ & Hlarge); [left; reflexivity|].
  apply Hlarge. reflexivity.
Defined.

(** X19, at an input: after [destroy] the socket closes, the timer fires
    and a message arrives. *)
Lemma destroyed_session_stays_silent_witness :
  GhostChat.sent_frames
    (snd (GhostChat.run (P := SamplePlatform.sample)
            [GhostChat.SocketClose; GhostChat.TimerFired true;
             GhostChat.Frame (Some (new_message Session.from_bob))]
            (fst (GhostChat.destroy Session.connected)))) = [].
Proof.
  destruct (@destroyed_session_stays_silent SamplePlatform.sample
              Session.connected
              [GhostChat.SocketClose; GhostChat.TimerFired true;
               GhostChat.Frame (Some (new_message Session.from_bob))])
    as (Hsent & _); [|exact Hsent].
  repeat constructor; discriminate.
Defined.

(** X20, at an input: the reconnect timer fires after the socket
    closed. *)
Lemma socket_made_only_when_none_live_witness :
  let s := GhostChat.set_ws (Some CLOSED) Session.connected in
  GhostChat.ws_is_live s = false ∧
  GhostChat.ws
    (fst (GhostChat.handle (P := SamplePlatform.sample)
            (GhostChat.TimerFired true) s)) = Some CONNECTING.
Proof.
  intros s.
  destruct (@socket_made_only_when_none_live SamplePlatform.sample
              (GhostChat.TimerFired true) s)
    as (Hlive & Hws & _); [vm_compute; by left|].
  split; [exact Hlive|exact Hws].
Defined.

(** X23, at an input: three clicks from the start. *)
Lemma logo_clicks_count_witness :
  App.currentMode
    (fst (App.run [App.LogoClick; App.LogoClick; App.LogoClick]
            App.initial)) = App.ghost.
Proof.
  destruct (logo_clicks_count 3 App.initial) as (_ & Hmode & _);
    [vm_compute; lia|].
  apply Hmode. right. vm_compute. lia.
Defined.

End SendExamples.
